(** * sdc3_simdata_downloader: listing, tree aggregation, rendering, download

    A shallow embedding of [sdc3_simdata_downloader.py].  Python integers are
    [Z]; [str] is [string]; the [children] dict of a [TreeNode] is a
    [gmap string TreeNode] (the insertion order of the dict, which only
    breaks ties when the renderer sorts, is not kept); exceptions are a
    [result] type; everything that reaches outside the process (the calls of
    [http_get], the local file system) goes through the operations of the
    class [Env], threaded through a state-and-error monad; the [while True]
    pagination loop takes fuel; the double of [human_bytes] is written out
    as an exact rational.  The world [Sim] is one instance of [Env]: a
    server that answers by script and records the URLs asked for, and a
    POSIX file system of regular files and directories.

    Left out: what [print] writes in [list_recursive] and [download_prefix],
    the traversal [_walk] of [print_tree] (its title line and [_emit_line]
    are here) and [main]. *)

From Stdlib Require Import ZArith Lia Ascii String Permutation.
From Stdlib Require Import DecimalString.
From stdpp Require Import gmap strings list fin_maps sorting.

Set Warnings "-register-all".
Open Scope Z_scope.

(** ** Python string helpers *)

Definition slash : ascii := "/"%char.

(** [s[n:]] *)
Fixpoint str_drop (n : nat) (s : string) : string :=
  match n, s with
  | O, _ => s
  | S n', String _ s' => str_drop n' s'
  | S _, EmptyString => EmptyString
  end.

(** [s.startswith(p)] *)
Fixpoint startswith (p s : string) : bool :=
  match p, s with
  | EmptyString, _ => true
  | String a p', String b s' => if Ascii.eqb a b then startswith p' s' else false
  | String _ _, EmptyString => false
  end.

(** [s.endswith(p)] for a one-character [p] *)
Fixpoint endswith_char (c : ascii) (s : string) : bool :=
  match s with
  | EmptyString => false
  | String a EmptyString => Ascii.eqb a c
  | String _ s' => endswith_char c s'
  end.

(** [s.split(sep)] for a one-character separator: never the empty list *)
Fixpoint split_char (sep : ascii) (s : string) : list string :=
  match s with
  | EmptyString => [EmptyString]
  | String c s' =>
      if Ascii.eqb c sep then EmptyString :: split_char sep s'
      else match split_char sep s' with
           | x :: xs => String c x :: xs
           | [] => [String c EmptyString]
           end
  end.

(** [s.lstrip(c)] *)
Fixpoint lstrip_char (c : ascii) (s : string) : string :=
  match s with
  | String a s' => if Ascii.eqb a c then lstrip_char c s' else s
  | EmptyString => EmptyString
  end.

(** [s.rstrip(c)] *)
Fixpoint rstrip_char (c : ascii) (s : string) : string :=
  match s with
  | EmptyString => EmptyString
  | String a s' =>
      match rstrip_char c s' with
      | EmptyString => if Ascii.eqb a c then EmptyString else String a EmptyString
      | r => String a r
      end
  end.

(** truthiness of a [str] *)
Definition nonempty (s : string) : bool :=
  match s with EmptyString => false | String _ _ => true end.

(** ** The tree of directories (class [TreeNode]) *)

Inductive TreeNode := mkTreeNode {
  name : string;
  children : gmap string TreeNode;
  file_count : Z;
  total_size : Z }.

(** [TreeNode(name)] *)
Definition TreeNode_init (nm : string) : TreeNode := mkTreeNode nm ∅ 0 0.

(** [node.children[part] = child] *)
Definition set_child (node : TreeNode) (part : string) (child : TreeNode) : TreeNode :=
  mkTreeNode (name node) (<[part := child]> (children node))
             (file_count node) (total_size node).

(** [_get_or_create_child]: the node after the call, and the child returned.
    The child is owned by its parent, so what the caller does to it
    afterwards is written back with [set_child]. *)
Definition _get_or_create_child (node : TreeNode) (part : string) : TreeNode * TreeNode :=
  match children node !! part with
  | Some child => (node, child)
  | None => let child := TreeNode_init part in (set_child node part child, child)
  end.

(** [n.file_count += 1; if size > 0: n.total_size += size] *)
Definition add_file (size : Z) (n : TreeNode) : TreeNode :=
  mkTreeNode (name n) (children n) (file_count n + 1)
             (if 0 <? size then total_size n + size else total_size n).

(** The loop [for d in parts[:-1]: cur = _get_or_create_child(cur, d)],
    started at [node]. *)
Fixpoint create_path (ds : list string) (node : TreeNode) : TreeNode :=
  match ds with
  | [] => node
  | d :: ds' =>
      let '(node', child) := _get_or_create_child node d in
      set_child node' d (create_path ds' child)
  end.

(** The loop [for d in parts[:-1]: walk = walk.children[d]; ...], started at
    [walk]; [None] is the [KeyError] of [walk.children[d]]. *)
Fixpoint add_along (ds : list string) (size : Z) (walk : TreeNode) : option TreeNode :=
  match ds with
  | [] => Some walk
  | d :: ds' =>
      match children walk !! d with
      | None => None
      | Some child =>
          match add_along ds' size (add_file size child) with
          | Some child' => Some (set_child walk d child')
          | None => None
          end
      end
  end.

(** [rel = key[preflen:] if preflen and key.startswith(prefix) else key] *)
Definition rel_key (prefix key : string) : string :=
  let preflen := String.length prefix in
  if negb (Nat.eqb preflen 0) && startswith prefix key
  then str_drop preflen key else key.

(** [parts = [p for p in rel.split("/") if p]] *)
Definition key_parts (prefix key : string) : list string :=
  List.filter nonempty (split_char slash (rel_key prefix key)).

(** One iteration of the loop of [build_tree] on the entry [(key, size)]. *)
Definition ingest (prefix : string) (root : TreeNode) (e : string * Z) : option TreeNode :=
  let '(key, size) := e in
  let parts := key_parts prefix key in
  let root1 :=
    if (1 <? length parts)%nat then create_path (removelast parts) root else root in
  match add_along (removelast parts) size root1 with
  | Some root2 => Some (add_file size root2)
  | None => None
  end.

(** The root [build_tree] starts from. *)
Definition build_tree_root (prefix : string) : TreeNode :=
  if nonempty prefix then TreeNode_init (rstrip_char slash prefix) else TreeNode_init "".

(** The [for] loop of [build_tree] over the entries the listing yields. *)
Fixpoint build_tree_loop (prefix : string) (root : TreeNode) (es : list (string * Z))
  : option TreeNode :=
  match es with
  | [] => Some root
  | e :: es' =>
      match ingest prefix root e with
      | Some root' => build_tree_loop prefix root' es'
      | None => None
      end
  end.

(** [build_tree] on the entries the listing yields. *)
Definition build_tree_of (prefix : string) (es : list (string * Z)) : option TreeNode :=
  build_tree_loop prefix (build_tree_root prefix) es.

(** The node reached from [t] by the directory names [ds]. *)
Fixpoint node_at (ds : list string) (t : TreeNode) : option TreeNode :=
  match ds with
  | [] => Some t
  | d :: ds' =>
      match children t !! d with
      | Some c => node_at ds' c
      | None => None
      end
  end.

(** ** Exceptions and effects *)

Inductive exn :=
  | RuntimeError   (* raised by [http_get] on an HTTP or network error *)
  | ParseError     (* [ET.fromstring] on a malformed body *)
  | ValueError     (* [int(s)] on a text that is no integer *)
  | KeyError       (* [walk.children[d]] on a missing child *)
  | OSError        (* the file system *)
  | OverflowError. (* [float(n)] on an integer beyond the doubles *)

(** What running a piece of code gives: a value, an exception, or no
    answer within the fuel given to the [while True] loop. *)
Inductive result (A : Type) :=
  | Ok (a : A)
  | Raise (e : exn)
  | OutOfFuel.
Arguments Ok {A} a.
Arguments Raise {A} e.
Arguments OutOfFuel {A}.

(** Code running in a world [W]. *)
Definition M (W A : Type) : Type := W -> result A * W.

Definition ret {W A} (a : A) : M W A := fun w => (Ok a, w).
Definition raise {W A} (e : exn) : M W A := fun w => (Raise e, w).
Definition bind {W A B} (m : M W A) (k : A -> M W B) : M W B :=
  fun w =>
    match m w with
    | (Ok a, w') => k a w'
    | (Raise e, w') => (Raise e, w')
    | (OutOfFuel, w') => (OutOfFuel, w')
    end.

Notation "'let*' x ':=' m 'in' k" := (bind m (fun x => k))
  (at level 10, x pattern, m at level 100, k at level 200).

Definition map_result {A B} (f : A -> B) (r : result A) : result B :=
  match r with
  | Ok a => Ok (f a)
  | Raise e => Raise e
  | OutOfFuel => OutOfFuel
  end.

(** [for x in xs: acc = body(acc, x)] *)
Fixpoint for_each {W A X} (xs : list X) (body : A -> X -> M W A) (acc : A) : M W A :=
  match xs with
  | [] => ret acc
  | x :: xs' => let* acc' := body acc x in for_each xs' body acc'
  end.

(** ** Parsed XML ([xml.etree.ElementTree.Element]) *)

Inductive Element := mkElement (tag : string) (text : option string) (elems : list Element).

Definition tag (e : Element) : string := let 'mkElement t _ _ := e in t.
Definition text (e : Element) : option string := let 'mkElement _ x _ := e in x.
Definition elems (e : Element) : list Element := let 'mkElement _ _ l := e in l.

(** [elem.findall(path)] and [elem.find(path)] for a path that is one
    (possibly namespace-qualified) tag: the direct children with that tag. *)
Definition findall (path : string) (e : Element) : list Element :=
  List.filter (fun c => String.eqb (tag c) path) (elems e).
Definition find (path : string) (e : Element) : option Element :=
  List.head (findall path e).

(** ** The world outside the process *)

Class Env (W : Type) := {
  (** [ET.fromstring(http_get(url))] for the listing URL made of the bucket
      URL and the query parameters *)
  http_get_xml : string -> list (string * string) -> M W Element;
  (** [http_get(base_url + "/" + quote(key), stream_to=path)] *)
  http_get_stream : string -> string -> string -> M W unit;
  (** [os.makedirs(d, exist_ok=True)] *)
  os_makedirs : string -> M W unit;
  (** [os.path.exists(path)] *)
  os_path_exists : string -> W -> bool;
  (** [os.path.getsize(path)]; [None] is an [OSError] *)
  os_path_getsize : string -> W -> option Z;
  (** [os.path.join(a, b)] and [os.path.dirname(path)] *)
  os_path_join : string -> string -> string;
  os_path_dirname : string -> string;
  (** [int(s)]; [None] is a [ValueError] *)
  py_int : string -> option Z
}.

(** ** Listing client *)

(** The dict [list_objects_v2] returns. *)
Record Page := mkPage {
  keys : list (string * Z);
  common_prefixes : list string;
  is_truncated : bool;
  next_token : option string }.

(** [str(n)] *)
Definition str_of_int (n : Z) : string := NilZero.string_of_int (Z.to_int n).

(** truthiness of an [Optional[str]] *)
Definition truthy (o : option string) : bool :=
  match o with Some s => nonempty s | None => false end.

Definition lower_char (c : ascii) : ascii :=
  let n := N_of_ascii c in
  if ((65 <=? n) && (n <=? 90))%N then ascii_of_N (n + 32) else c.

(** [s.lower()] *)
Fixpoint lower (s : string) : string :=
  match s with
  | EmptyString => EmptyString
  | String c s' => String (lower_char c) (lower s')
  end.

(** [s.split(c)[0]] *)
Fixpoint before_char (c : ascii) (s : string) : string :=
  match s with
  | EmptyString => EmptyString
  | String a s' => if Ascii.eqb a c then EmptyString else String a (before_char c s')
  end.

(** The query parameters of a listing request, in insertion order. *)
Definition listing_params (prefix : string) (delimiter continuation_token : option string)
    (max_keys : Z) : list (string * string) :=
  [("list-type", "2"); ("max-keys", str_of_int max_keys)]%string
  ++ (if nonempty prefix then [("prefix"%string, prefix)] else [])
  ++ (if truthy delimiter then [("delimiter"%string, default ""%string delimiter)] else [])
  ++ (if truthy continuation_token
      then [("continuation-token"%string, default ""%string continuation_token)] else []).

(** The namespace prefix of the root tag. *)
Definition namespace_of (root : Element) : string :=
  if startswith "{" (tag root)
  then (before_char "}" (tag root) ++ "}")%string else ""%string.

(** The inner function [text(elem, name)]. *)
Definition text_of (ns : string) (elem : Element) (nm : string) : option string :=
  match find (ns ++ nm)%string elem with
  | Some x => text x
  | None => None
  end.

Section Listing.
Context {W : Type} `{Env W}.

(** The loop over the [Contents] elements. *)
Fixpoint contents_keys (ns : string) (cs : list Element) : result (list (string * Z)) :=
  match cs with
  | [] => Ok []
  | c :: cs' =>
      let k := text_of ns c "Key" in
      let s := text_of ns c "Size" in
      match k with
      | None => contents_keys ns cs'
      | Some k =>
          match (match s with Some s => py_int s | None => Some (-1) end) with
          | None => Raise ValueError
          | Some size =>
              match contents_keys ns cs' with
              | Ok l => Ok ((k, size) :: l)
              | r => r
              end
          end
      end
  end.

(** The loop over the [CommonPrefixes] elements. *)
Fixpoint prefixes_of (ns : string) (cps : list Element) : list string :=
  match cps with
  | [] => []
  | cp :: cps' =>
      match text_of ns cp "Prefix" with
      | Some p => if nonempty p then p :: prefixes_of ns cps' else prefixes_of ns cps'
      | None => prefixes_of ns cps'
      end
  end.

(** What [list_objects_v2] makes of the parsed response body. *)
Definition page_of_xml (root : Element) : result Page :=
  let ns := namespace_of root in
  match contents_keys ns (findall (ns ++ "Contents")%string root) with
  | Ok ks =>
      Ok {| keys := ks;
            common_prefixes := prefixes_of ns (findall (ns ++ "CommonPrefixes")%string root);
            is_truncated :=
              String.eqb (lower (default ""%string (text_of ns root "IsTruncated"))) "true";
            next_token := text_of ns root "NextContinuationToken" |}
  | Raise e => Raise e
  | OutOfFuel => OutOfFuel
  end.

Definition list_objects_v2 (base_url prefix : string)
    (delimiter continuation_token : option string) (max_keys : Z) : M W Page :=
  let* root :=
    http_get_xml base_url (listing_params prefix delimiter continuation_token max_keys) in
  fun w => (page_of_xml root, w).

(** [for e in iter_all_objects(base_url, prefix): acc = body(acc, e)]: the
    generator is driven by its consumer, so the body of the consumer runs
    between two requests.  [token] is the generator's variable, [None] at
    the start; one unit of fuel per turn of [while True]. *)
Fixpoint iter_all_objects {A} (fuel : nat) (base_url prefix : string)
    (token : option string) (body : A -> string * Z -> M W A) (acc : A) : M W A :=
  match fuel with
  | O => fun w => (OutOfFuel, w)
  | S fuel' =>
      let* page := list_objects_v2 base_url prefix None token 1000 in
      let* acc' := for_each (keys page) body acc in
      if negb (is_truncated page) then ret acc'
      else iter_all_objects fuel' base_url prefix (next_token page) body acc'
  end.

(** [list(iter_all_objects(base_url, prefix))]: everything yielded. *)
Definition all_objects (fuel : nat) (base_url prefix : string) : M W (list (string * Z)) :=
  iter_all_objects fuel base_url prefix None (fun l e => ret (l ++ [e])) [].

(** [list_recursive] (the printing of each line left out). *)
Definition list_recursive (fuel : nat) (base_url prefix : string) : M W (Z * Z) :=
  iter_all_objects fuel base_url prefix None
    (fun '(count, total_bytes) '(key, size) =>
       ret (count + 1, if 0 <? size then total_bytes + size else total_bytes))
    (0, 0).

(** [list_recursive]'s loop on the entries yielded. *)
Definition list_recursive_of (es : list (string * Z)) : Z * Z :=
  fold_left
    (fun '(count, total_bytes) '(key, size) =>
       (count + 1, if 0 <? size then total_bytes + size else total_bytes))
    es (0, 0).

(** [build_tree] *)
Definition build_tree (fuel : nat) (base_url prefix : string) : M W TreeNode :=
  iter_all_objects fuel base_url prefix None
    (fun root e => match ingest prefix root e with
                   | Some root' => ret root'
                   | None => raise KeyError
                   end)
    (build_tree_root prefix).

(** ** Download *)

Definition ensure_parent (path : string) : M W unit :=
  let d := os_path_dirname path in
  if nonempty d then os_makedirs d else ret tt.

(** The test of [download_object]: [size is not None and
    os.path.exists(local_path)], then [os.path.getsize(local_path) ==
    int(size)] with an [OSError] caught and passed over. *)
Definition size_matches (local_path : string) (size : option Z) : M W bool :=
  fun w =>
    match size with
    | Some sz =>
        if os_path_exists local_path w then
          match os_path_getsize local_path w with
          | Some n => (Ok (n =? sz), w)
          | None => (Ok false, w)
          end
        else (Ok false, w)
    | None => (Ok false, w)
    end.

(** [download_object]; [size] is an [Optional[int]]. *)
Definition download_object (base_url key dest_root : string) (size : option Z)
  : M W (string * bool) :=
  let local_path := os_path_join dest_root key in
  let* _ := ensure_parent local_path in
  let* skip := size_matches local_path size in
  if skip : bool then ret (local_path, false)
  else
    let* _ := http_get_stream base_url key local_path in
    ret (local_path, true).

(** The body of the loop of [download_prefix] (the printing of the line
    left out): the counters are [(downloaded, skipped, total)]. *)
Definition download_step (base_url dest : string) (c : Z * Z * Z) (e : string * Z)
  : M W (Z * Z * Z) :=
  let '(downloaded, skipped, total) := c in
  let '(key, size) := e in
  let* (local_path, did_download) := download_object base_url key dest (Some size) in
  if did_download : bool then ret (downloaded + 1, skipped, total + 1)
  else ret (downloaded, skipped + 1, total + 1).

(** [download_prefix] *)
Definition download_prefix (fuel : nat) (base_url prefix dest : string) : M W (Z * Z * Z) :=
  iter_all_objects fuel base_url prefix None (download_step base_url dest) (0, 0, 0).
End Listing.

(** [normalize_prefix]; the argument is an [Optional[str]]. *)
Definition normalize_prefix (p : option string) : string :=
  match p with
  | None => ""
  | Some p =>
      if negb (nonempty p) then ""
      else
        let p := lstrip_char slash p in
        if nonempty p && negb (endswith_char slash p) then (p ++ "/")%string else p
  end.

(** ** Human-readable sizes *)

(** A binary floating-point value written out as the rational
    [fnum / 2^fshift]. *)
Record dyadic := mkDyadic { fnum : Z; fshift : Z }.

(** [num / den] rounded to the nearest integer, ties to even
    ([0 <= num], [0 < den]). *)
Definition round_half_even (num den : Z) : Z :=
  let q := num / den in
  let r := num mod den in
  if 2 * r <? den then q
  else if den <? 2 * r then q + 1
  else if Z.even q then q else q + 1.

(** [float(n)] for a Python [int]: the nearest double, ties to even, which
    keeps 53 significant bits; [None] is the [OverflowError] of an integer
    that rounds to 2^1024 or more.  The value is again an integer. *)
Definition float_of_int (n : Z) : option Z :=
  let a := Z.abs n in
  let drop := Z.max 0 (Z.log2 a + 1 - 53) in
  let v := round_half_even a (2 ^ drop) * 2 ^ drop in
  if v <? 2 ^ 1024 then Some (Z.sgn n * v) else None.

(** [f >= 1024] *)
Definition ge_1024 (f : dyadic) : bool := 1024 * 2 ^ fshift f <=? fnum f.

(** [f /= 1024.0]: exact on a double of magnitude 1024 or more, only the
    exponent changes. *)
Definition div_1024 (f : dyadic) : dyadic := mkDyadic (fnum f) (fshift f + 10).

Definition units : list string := ["B"; "KB"; "MB"; "GB"; "TB"]%string.

(** The loop [while f >= 1024 and i < len(units) - 1], with
    [left = len(units) - 1 - i]. *)
Fixpoint scale (left : nat) (f : dyadic) (i : nat) : dyadic * nat :=
  match left with
  | O => (f, i)
  | S left' => if ge_1024 f then scale left' (div_1024 f) (S i) else (f, i)
  end.

(** Two decimal digits. *)
Definition two_digits (n : Z) : string :=
  if n <? 10 then ("0" ++ str_of_int n)%string else str_of_int n.

(** [f"{f:.2f}"] for the value [num / den] with [0 < den]: the decimal
    expansion correctly rounded at the second place, ties to even. *)
Definition fixed2 (num den : Z) : string :=
  let q := round_half_even (Z.abs num * 100) den in
  ((if (num <? 0)%Z then "-" else "") ++ str_of_int (q / 100)%Z ++ "."
   ++ two_digits (q mod 100)%Z)%string.

Definition format_2f (f : dyadic) : string := fixed2 (fnum f) (2 ^ fshift f).

(** [human_bytes] *)
Definition human_bytes (n : Z) : result string :=
  match float_of_int n with
  | None => Raise OverflowError
  | Some v =>
      let '(f, i) := scale (length units - 1) (mkDyadic v 0) 0 in
      Ok (format_2f f ++ " " ++ nth i units "")%string
  end.

(** ** Tree renderer: the lines of [print_tree] that carry a size *)

(** [human_bytes(tn.total_size) if tn.file_count > 0 else "0 B"] *)
Definition size_str (tn : TreeNode) : result string :=
  if 0 <? file_count tn then human_bytes (total_size tn) else Ok "0 B"%string.

(** The glyphs chosen by [ascii_mode]: [(BRANCH_LAST, BRANCH_MID, TRUNK, INDENT)]. *)
Definition glyphs (ascii_mode : bool) : string * string * string * string :=
  if ascii_mode then ("+-- ", "+-- ", "|   ", "    ")%string
  else ("└── ", "├── ", "│   ", "    ")%string.

(** The line printed by [_emit_line]. *)
Definition _emit_line (ascii_mode : bool) (prefix nm : string) (tn : TreeNode)
    (is_last : bool) : result string :=
  let '(BRANCH_LAST, BRANCH_MID, _, _) := glyphs ascii_mode in
  let branch := if is_last then BRANCH_LAST else BRANCH_MID in
  match size_str tn with
  | Ok s =>
      Ok (prefix ++ branch ++ nm ++ "/  [" ++ str_of_int (file_count tn)
          ++ " files, " ++ s ++ "]")%string
  | Raise e => Raise e
  | OutOfFuel => OutOfFuel
  end.

(** The title line of [print_tree]. *)
Definition title_line (node : TreeNode) (base_label : string) : result string :=
  match size_str node with
  | Ok s =>
      Ok (base_label ++ "/  [" ++ str_of_int (file_count node)
          ++ " files, " ++ s ++ "]")%string
  | Raise e => Raise e
  | OutOfFuel => OutOfFuel
  end.

(** ** Pages of a listing, logged loops, local files *)

Section Pagination.
Context {W : Type} `{Env W}.

(** [paginates base_url prefix w token pages w']: asked from the world [w]
    with [token], each further request carrying the [next_token] of the
    page before it, the server returns [pages], of which the last one is
    the first that is not truncated, and leaves the world [w']. *)
Inductive paginates (base_url prefix : string)
  : W -> option string -> list Page -> W -> Prop :=
| paginates_last w token page w' :
    list_objects_v2 base_url prefix None token 1000 w = (Ok page, w') ->
    is_truncated page = false ->
    paginates base_url prefix w token [page] w'
| paginates_next w token page w1 pages w' :
    list_objects_v2 base_url prefix None token 1000 w = (Ok page, w1) ->
    is_truncated page = true ->
    paginates base_url prefix w1 (next_token page) pages w' ->
    paginates base_url prefix w token (page :: pages) w'.

(** A loop body that also records the entry it is given. *)
Definition with_log {A} (body : A -> string * Z -> M W A)
  : A * list (string * Z) -> string * Z -> M W (A * list (string * Z)) :=
  fun '(a, l) e => let* a' := body a e in ret (a', l ++ [e]).

(** [download_prefix], together with the entries the listing gave it. *)
Definition download_prefix_logged (fuel : nat) (base_url prefix dest : string)
  : M W (Z * Z * Z * list (string * Z)) :=
  iter_all_objects fuel base_url prefix None
    (with_log (download_step base_url dest)) (0, 0, 0, []).

(** Something of [n] bytes is at [path]. *)
Definition has_file (path : string) (n : Z) (w : W) : Prop :=
  os_path_exists path w = true /\ os_path_getsize path w = Some n.

(** The size is known, a local file exists and has exactly that size. *)
Definition known_size_matches (path : string) (size : option Z) (w : W) : Prop :=
  exists sz, size = Some sz /\ has_file path sz w.
End Pagination.

(** ** Quoting for URLs *)

Fixpoint contains_char (c : ascii) (s : string) : bool :=
  match s with
  | EmptyString => false
  | String a s' => Ascii.eqb a c || contains_char c s'
  end.

(** The characters [urllib.parse.quote] never escapes: letters, digits and
    [_.-~]. *)
Definition always_safe (c : ascii) : bool :=
  let n := N_of_ascii c in
  (((65 <=? n) && (n <=? 90)) || ((97 <=? n) && (n <=? 122)) || ((48 <=? n) && (n <=? 57))
   || (n =? 95) || (n =? 46) || (n =? 45) || (n =? 126))%N.

Definition hex_digit (n : N) : ascii :=
  if (n <? 10)%N then ascii_of_N (48 + n) else ascii_of_N (55 + n).

(** ["%{:02X}".format(b)] *)
Definition percent (c : ascii) : string :=
  let n := N_of_ascii c in
  String "%" (String (hex_digit (n / 16)) (String (hex_digit (n mod 16)) EmptyString)).

Definition kept (safe : string) (c : ascii) : bool :=
  always_safe c || ((N_of_ascii c <? 128)%N && contains_char c safe).

(** [urllib.parse.quote(s, safe=safe)], on the UTF-8 bytes of [s]: a byte
    is kept when it is always safe or an ASCII character of [safe], and
    written as a percent sign and two upper-case hexadecimal digits
    otherwise. *)
Fixpoint quote (safe : string) (s : string) : string :=
  match s with
  | EmptyString => EmptyString
  | String c s' =>
      ((if kept safe c then String c EmptyString else percent c) ++ quote safe s')%string
  end.

(** [s.replace(" ", "+")] *)
Fixpoint spaces_to_plus (s : string) : string :=
  match s with
  | EmptyString => EmptyString
  | String c s' => String (if Ascii.eqb c " " then "+"%char else c) (spaces_to_plus s')
  end.

(** [urllib.parse.quote_plus(s, safe=safe)]: a text without space goes
    through [quote]; in a text with a space the spaces are kept by [quote]
    and then written as plus signs. *)
Definition quote_plus (safe s : string) : string :=
  if contains_char " " s then spaces_to_plus (quote (safe ++ " ") s) else quote safe s.

(** What [quote_plus] writes for one byte, and for a text. *)
Definition plus_byte (safe : string) (c : ascii) : string :=
  if Ascii.eqb c " " then "+"%string
  else if kept safe c then String c EmptyString else percent c.

Fixpoint plus_bytes (safe : string) (s : string) : string :=
  match s with
  | EmptyString => EmptyString
  | String c s' => (plus_byte safe c ++ plus_bytes safe s')%string
  end.

(** [urllib.parse.urlencode(params, safe=safe)] for a dict of strings, in
    the order of insertion. *)
Definition urlencode (safe : string) (params : list (string * string)) : string :=
  String.concat "&"
    (List.map (fun kv => (quote_plus safe (fst kv) ++ "=" ++ quote_plus safe (snd kv))%string)
       params).

(** The URL [list_objects_v2] asks for:
    [base_url + "?" + urllib.parse.urlencode(params, safe="/:+")]. *)
Definition listing_url (base_url : string) (params : list (string * string)) : string :=
  (base_url ++ "?" ++ urlencode "/:+" params)%string.

(** The URL [download_object] asks for:
    [base_url + "/" + urllib.parse.quote(key, safe="/:+")]. *)
Definition object_url (base_url key : string) : string :=
  (base_url ++ "/" ++ quote "/:+" key)%string.

(** ** A simulated world *)

(** [posixpath.join(a, b)] *)
Definition posix_join (a b : string) : string :=
  if startswith "/" b then b
  else if negb (nonempty a) || endswith_char slash a then (a ++ b)%string
  else (a ++ "/" ++ b)%string.

Fixpoint has_slash (s : string) : bool :=
  match s with
  | EmptyString => false
  | String c s' => Ascii.eqb c slash || has_slash s'
  end.

(** [p[:p.rfind("/") + 1]] *)
Fixpoint through_last_slash (p : string) : string :=
  match p with
  | EmptyString => EmptyString
  | String c p' => if has_slash p then String c (through_last_slash p') else EmptyString
  end.

(** [posixpath.dirname(p)] *)
Definition posix_dirname (p : string) : string :=
  let head := through_last_slash p in
  if nonempty head && nonempty (lstrip_char slash head) then rstrip_char slash head else head.

(** *** [int(s)] for a text (CPython 3.11, Unicode 14) *)

(** The code points of a text from its UTF-8 bytes; [None] when the bytes
    are no UTF-8. *)
Fixpoint code_points (s : string) : option (list N) :=
  let cont (b : ascii) : option N :=
    let n := N_of_ascii b in
    if ((128 <=? n) && (n <? 192))%N then Some (n - 128)%N else None in
  match s with
  | EmptyString => Some []
  | String b0 s1 =>
      let n0 := N_of_ascii b0 in
      if (n0 <? 128)%N then cons n0 <$> code_points s1
      else if ((192 <=? n0) && (n0 <? 224))%N then
        match s1 with
        | String b1 s2 =>
            match cont b1 with
            | Some n1 => cons ((n0 - 192) * 64 + n1)%N <$> code_points s2
            | None => None
            end
        | _ => None
        end
      else if ((224 <=? n0) && (n0 <? 240))%N then
        match s1 with
        | String b1 (String b2 s3) =>
            match cont b1, cont b2 with
            | Some n1, Some n2 =>
                cons (((n0 - 224) * 64 + n1) * 64 + n2)%N <$> code_points s3
            | _, _ => None
            end
        | _ => None
        end
      else if ((240 <=? n0) && (n0 <? 248))%N then
        match s1 with
        | String b1 (String b2 (String b3 s4)) =>
            match cont b1, cont b2, cont b3 with
            | Some n1, Some n2, Some n3 =>
                cons ((((n0 - 240) * 64 + n1) * 64 + n2) * 64 + n3)%N <$> code_points s4
            | _, _, _ => None
            end
        | _ => None
        end
      else None
  end.

(** The white space of C: space, and tab to carriage return. *)
Definition c_space (c : N) : bool := ((c =? 32) || ((9 <=? c) && (c <=? 13)))%N.

(** The white space of Unicode beyond ASCII. *)
Definition unicode_spaces : list N :=
  [133; 160; 5760; 8192; 8193; 8194; 8195; 8196; 8197; 8198; 8199; 8200; 8201; 8202;
   8232; 8233; 8239; 8287; 12288]%N.

(** The code points of the digits zero of Unicode; the nine code points
    after each of them are its digits one to nine. *)
Definition decimal_zeros : list N :=
  [48; 1632; 1776; 1984; 2406; 2534; 2662; 2790; 2918; 3046; 3174; 3302;
   3430; 3558; 3664; 3792; 3872; 4160; 4240; 6112; 6160; 6470; 6608; 6784;
   6800; 6992; 7088; 7232; 7248; 42528; 43216; 43264; 43472; 43504; 43600;
   44016; 65296; 66720; 68912; 69734; 69872; 69942; 70096; 70384; 70736;
   70864; 71248; 71360; 71472; 71904; 72016; 72784; 73040; 73120; 92768;
   92864; 93008; 120782; 120792; 120802; 120812; 120822; 123200; 123632;
   125264; 130032]%N.

Definition decimal_value (cp : N) : option N :=
  match List.find (fun z => ((z <=? cp) && (cp <? z + 10))%N) decimal_zeros with
  | Some z => Some (cp - z)%N
  | None => None
  end.

(** What [int] first makes of a code point: below 127 it stays, a space
    of Unicode becomes a space, a digit of Unicode becomes its ASCII digit,
    anything else a question mark. *)
Definition to_ascii_code (cp : N) : N :=
  if (cp <? 127)%N then cp
  else if existsb (N.eqb cp) unicode_spaces then 32%N
  else match decimal_value cp with Some d => (48 + d)%N | None => 63%N end.

Fixpoint skip_spaces (l : list N) : list N :=
  match l with
  | c :: l' => if c_space c then skip_spaces l' else l
  | [] => []
  end.

(** The digits of a number, with single underscores between digits:
    [prev] is [None] at the start, [Some true] after an underscore and
    [Some false] after a digit.  Gives the value, the number of digits and
    what follows. *)
Fixpoint scan_digits (l : list N) (prev : option bool) (acc : Z) (digits : nat)
  : option (Z * nat * list N) :=
  let finish := match prev with Some false => Some (acc, digits, l) | _ => None end in
  match l with
  | c :: l' =>
      if ((48 <=? c) && (c <=? 57))%N
      then scan_digits l' (Some false) (10 * acc + Z.of_N (c - 48)) (S digits)
      else if (c =? 95)%N then
        match prev with
        | Some false => scan_digits l' (Some true) acc digits
        | _ => None
        end
      else finish
  | [] => finish
  end.

(** [int(s)]: white space, an optional sign, decimal digits with single
    underscores between them, white space; more than 4300 digits are
    refused.  [None] is a [ValueError]. *)
Definition int_of_str (s : string) : option Z :=
  match code_points s with
  | None => None
  | Some cps =>
      let l := skip_spaces (List.map to_ascii_code cps) in
      let '(sign, l) :=
        match l with
        | 43%N :: l' => (1, l')
        | 45%N :: l' => (-1, l')
        | _ => (1, l)
        end in
      match scan_digits l None 0 0 with
      | Some (v, digits, rest) =>
          if (4300 <? digits)%nat then None
          else match skip_spaces rest with
               | [] => Some (sign * v)
               | _ => None
               end
      | None => None
      end
  end.

(** *** The local file system *)

(** What is at a place: a regular file of [len] bytes, or a directory.  A
    place is the list of the names that lead to it from the root; the root
    is a directory.  There are no symbolic links, no limits on names, no
    rights to lack and no space to run out of, and nobody else writes. *)
Inductive fobj :=
  | File (len : Z)
  | Dir.

Definition entry_at (fs : gmap (list string) fobj) (loc : list string) : option fobj :=
  match loc with
  | [] => Some Dir
  | _ => fs !! loc
  end.

Definition is_dir (fs : gmap (list string) fobj) (loc : list string) : bool :=
  match entry_at fs loc with
  | Some Dir => true
  | _ => false
  end.

(** Where one component of a path leads from the directory [cur]: an
    empty component and [.] stay, [..] goes to the parent, a name goes to
    the place of that name. *)
Definition path_step (cur : list string) (name : string) : list string :=
  if String.eqb name "" || String.eqb name "." then cur
  else if String.eqb name ".." then removelast cur
  else cur ++ [name].

(** Path resolution: each component is looked up in a directory. *)
Fixpoint walk (fs : gmap (list string) fobj) (cur : list string) (names : list string)
  : option (list string) :=
  match names with
  | [] => Some cur
  | n :: ns => if is_dir fs cur then walk fs (path_step cur n) ns else None
  end.

(** An absolute path starts at the root, any other at the working
    directory. *)
Definition path_start (cwd : list string) (path : string) : list string :=
  if startswith "/" path then [] else cwd.

(** [os.stat(path)]: the place the path leads to and what is there;
    [None] is an [OSError]. *)
Definition stat (fs : gmap (list string) fobj) (cwd : list string) (path : string)
  : option (list string * fobj) :=
  if nonempty path then
    match walk fs (path_start cwd path) (split_char slash path) with
    | Some loc =>
        match entry_at fs loc with
        | Some o => Some (loc, o)
        | None => None
        end
    | None => None
    end
  else None.

(** The directories [os.makedirs] goes through and makes where they are
    missing; it stops at a regular file.  The flag tells whether it went
    through; the directories made so far stay. *)
Fixpoint mkdirs (fs : gmap (list string) fobj) (cur : list string) (names : list string)
  : bool * gmap (list string) fobj :=
  match names with
  | [] => (true, fs)
  | n :: ns =>
      let nxt := path_step cur n in
      match entry_at fs nxt with
      | Some Dir => mkdirs fs nxt ns
      | Some (File _) => (false, fs)
      | None => mkdirs (<[nxt := Dir]> fs) nxt ns
      end
  end.

(** [os.makedirs(path, exist_ok=True)] *)
Definition makedirs (fs : gmap (list string) fobj) (cwd : list string) (path : string)
  : bool * gmap (list string) fobj :=
  if nonempty path && is_dir fs (path_start cwd path)
  then mkdirs fs (path_start cwd path) (split_char slash path)
  else (false, fs).

Definition proper_name (name : string) : bool :=
  negb (String.eqb name "" || String.eqb name "." || String.eqb name "..").

(** [open(path, "wb")] and the writing of [n] bytes: the last component
    names a file, new or old, in a directory that exists; [None] is an
    [OSError]. *)
Definition write_file (fs : gmap (list string) fobj) (cwd : list string) (path : string)
    (n : Z) : option (gmap (list string) fobj) :=
  if nonempty path then
    match walk fs (path_start cwd path) (split_char slash path) with
    | Some loc =>
        if proper_name (List.last (split_char slash path) ""%string) && negb (is_dir fs loc)
        then Some (<[loc := File n]> fs)
        else None
    | None => None
    end
  else None.

(** *** The world *)

(** The server answers the [i]-th listing request with [sim_listings i],
    whatever the request says, and serves at the URL [u] an object of
    [sim_objects !! u] bytes; [sim_requests] are the URLs asked for so far.
    [sim_files] is the local file system, [sim_cwd] the working directory,
    and [sim_dir_size] the size the file system reports for a directory.
    As in [http_get], an object is written to its file after the
    directory of the file is made, and is read and dropped when the path
    of the file is empty ([if stream_to:]). *)
Record Sim := mkSim {
  sim_listings : nat -> result Element;
  sim_calls : nat;
  sim_requests : list string;
  sim_objects : gmap string Z;
  sim_cwd : list string;
  sim_dir_size : gmap (list string) fobj -> list string -> Z;
  sim_files : gmap (list string) fobj }.

Definition sim_set_files (w : Sim) (files : gmap (list string) fobj) : Sim :=
  mkSim (sim_listings w) (sim_calls w) (sim_requests w) (sim_objects w)
        (sim_cwd w) (sim_dir_size w) files.

Definition sim_log (url : string) (w : Sim) : Sim :=
  mkSim (sim_listings w) (sim_calls w) (sim_requests w ++ [url]) (sim_objects w)
        (sim_cwd w) (sim_dir_size w) (sim_files w).

Definition sim_stat (path : string) (w : Sim) : option (list string * fobj) :=
  stat (sim_files w) (sim_cwd w) path.

#[export] Instance Sim_Env : Env Sim := {
  http_get_xml base_url params w :=
    (sim_listings w (sim_calls w),
     mkSim (sim_listings w) (S (sim_calls w))
           (sim_requests w ++ [listing_url base_url params])
           (sim_objects w) (sim_cwd w) (sim_dir_size w) (sim_files w));
  http_get_stream base_url key path w :=
    let w1 := sim_log (object_url base_url key) w in
    match sim_objects w !! object_url base_url key with
    | Some n =>
        if nonempty path then
          let '(made, fs1) := makedirs (sim_files w) (sim_cwd w) (posix_dirname path) in
          if made : bool then
            match write_file fs1 (sim_cwd w) path n with
            | Some fs2 => (Ok tt, sim_set_files w1 fs2)
            | None => (Raise OSError, sim_set_files w1 fs1)
            end
          else (Raise OSError, sim_set_files w1 fs1)
        else (Ok tt, w1)
    | None => (Raise RuntimeError, w1)
    end;
  os_makedirs d w :=
    let '(made, fs1) := makedirs (sim_files w) (sim_cwd w) d in
    (if made : bool then Ok tt else Raise OSError, sim_set_files w fs1);
  os_path_exists path w :=
    match sim_stat path w with Some _ => true | None => false end;
  os_path_getsize path w :=
    match sim_stat path w with
    | Some (_, File n) => Some n
    | Some (loc, Dir) => Some (sim_dir_size w (sim_files w) loc)
    | None => None
    end;
  os_path_join := posix_join;
  os_path_dirname := posix_dirname;
  py_int := int_of_str
}.

(** [os.path.isdir(path)] and [os.path.isfile(path)] *)
Definition sim_isdir (path : string) (w : Sim) : bool :=
  match sim_stat path w with
  | Some (_, Dir) => true
  | _ => false
  end.


(** The place a path names, whatever is there: its components followed
    from where it starts. *)
Definition locate (cwd : list string) (path : string) : list string :=
  fold_left path_step (split_char slash path) (path_start cwd path).

Definition sim_locate (w : Sim) (path : string) : list string :=
  locate (sim_cwd w) path.

(** A [ListBucketResult] body without namespace. *)
Definition xml_leaf (t : string) (x : string) : Element := mkElement t (Some x) [].

Definition xml_contents (e : string * option string) : Element :=
  mkElement "Contents" None
    (xml_leaf "Key" (fst e)
     :: match snd e with Some s => [xml_leaf "Size" s] | None => [] end).

Definition xml_listing (entries : list (string * option string)) (truncated : string)
    (token : option string) : Element :=
  mkElement "ListBucketResult" None
    (List.map xml_contents entries
     ++ [xml_leaf "IsTruncated" truncated]
     ++ match token with Some t => [xml_leaf "NextContinuationToken" t] | None => [] end).

(** The world [w] with the server as it was in [w0]: the same listing
    answered again from the first request on, the same objects. *)
Definition sim_again (w0 w : Sim) : Sim :=
  mkSim (sim_listings w0) (sim_calls w0) (sim_requests w0) (sim_objects w0)
        (sim_cwd w) (sim_dir_size w) (sim_files w).

(** A world with the given listing responses and remote objects, no request
    made yet and the given local files; the working directory is the root
    and a directory has 4096 bytes. *)
Definition sim_start (listings : nat -> result Element) (objects : gmap string Z)
    (files : gmap (list string) fobj) : Sim :=
  mkSim listings 0 [] objects [] (fun _ _ => 4096) files.

(** The responses of a server that sends the listed pages and then fails. *)
Definition scripted (script : list Element) : nat -> result Element :=
  fun i => match script !! i with Some x => Ok x | None => Raise RuntimeError end.

(** A server that answers every request with the same truncated page
    without continuation token. *)
Definition stuck_server : nat -> result Element :=
  fun _ => Ok (xml_listing [("a.txt"%string, Some "1"%string)] "true" None).

(** ** Worlds and pages used as examples *)

(** Two pages, split after the second object. *)
Definition two_page_server : list Element :=
  [xml_listing [("a/b.txt"%string, Some "10"%string); ("a/c.txt"%string, None)]
     "true" (Some "t1"%string);
   xml_listing [("root.txt"%string, Some "5"%string)] "false" None].

Definition two_pages : list Page :=
  [mkPage [("a/b.txt"%string, 10); ("a/c.txt"%string, -1)] [] true (Some "t1"%string);
   mkPage [("root.txt"%string, 5)] [] false None].

(** The page the stuck server keeps sending. *)
Definition stuck_page : Page := mkPage [("a.txt"%string, 1)] [] true None.

(** A local file of 100 bytes at [dest/k]; the object [k] has 101 bytes. *)
Definition one_file_world : Sim :=
  sim_start (scripted []) {[ "u/k"%string := 101 ]}
    {[ ["dest"%string] := Dir; ["dest"%string; "k"%string] := File 100 ]}.

(** Two objects, both with their size listed. *)
Definition sized_world : Sim :=
  sim_start
    (scripted [xml_listing [("a.txt"%string, Some "7"%string); ("b/c"%string, Some "0"%string)]
                 "false" None])
    {[ "u/a.txt"%string := 7; "u/b/c"%string := 0 ]} ∅.

(** The same, with the first object already there. *)
Definition half_done_world : Sim :=
  sim_set_files sized_world
    {[ ["dest"%string] := Dir; ["dest"%string; "a.txt"%string] := File 7 ]}.


(** One object of 7 bytes, listed with size 5. *)
Definition stale_size_world : Sim :=
  sim_start (scripted [xml_listing [("a.txt"%string, Some "5"%string)] "false" None])
            {[ "u/a.txt"%string := 7 ]} ∅.

(** Two keys of different sizes that [posixpath.join] sends to the same
    local path under [/d]. *)
Definition clash_world : Sim :=
  sim_start
    (scripted [xml_listing [("/d/x"%string, Some "1"%string); ("x"%string, Some "2"%string)]
                 "false" None])
    {[ "u//d/x"%string := 1; "u/x"%string := 2 ]} ∅.

(** Two keys of different sizes whose local paths differ and name the same
    file. *)
Definition same_file_world : Sim :=
  sim_start
    (scripted [xml_listing [("a//b"%string, Some "1"%string); ("a/b"%string, Some "2"%string)]
                 "false" None])
    {[ "u/a//b"%string := 1; "u/a/b"%string := 2 ]} ∅.

(** A key that ends with a slash, as the markers of directories do. *)
Definition marker_world : Sim :=
  sim_start (scripted [xml_listing [("a/"%string, Some "0"%string)] "false" None])
            {[ "u/a/"%string := 0 ]} ∅.


(** A file system that reports, as the size of a directory, the number of
    files and directories it holds in all; the directory [dest/a] is
    there, and the listing has the key [a] with that size. *)
Definition directory_size_world : Sim :=
  mkSim
    (scripted [xml_listing [("a"%string, Some "2"%string); ("a/b"%string, Some "1"%string)]
                 "false" None])
    0 [] {[ "u/a"%string := 2; "u/a/b"%string := 1 ]} []
    (fun fs _ => Z.of_nat (size fs))
    {[ ["dest"%string] := Dir; ["dest"%string; "a"%string] := Dir ]}.



(** The file system has grown: what was there is there, and what is new
    is a directory. *)
Definition grown (fs fs' : gmap (list string) fobj) : Prop :=
  forall loc, fs' !! loc = fs !! loc \/ (fs !! loc = None /\ fs' !! loc = Some Dir).



(** ** What the aggregates of a node should be *)

(** [q] is an initial segment of [l]. *)
Fixpoint is_prefix (q l : list string) : bool :=
  match q, l with
  | [], _ => true
  | x :: q', y :: l' => if String.eqb x y then is_prefix q' l' else false
  | _ :: _, [] => false
  end.

(** The directories of a key: its path segments below the prefix, without
    the last one, which names the file. *)
Definition key_dirs (prefix key : string) : list string :=
  removelast (key_parts prefix key).

(** The entry lies in the subtree of the directory reached by [q]. *)
Definition under (prefix : string) (q : list string) (e : string * Z) : bool :=
  is_prefix q (key_dirs prefix (fst e)).

Definition files_under (prefix : string) (q : list string) (es : list (string * Z))
  : list (string * Z) :=
  List.filter (under prefix q) es.

(** Sum of the sizes of the entries whose size is > 0. *)
Definition sum_positive (es : list (string * Z)) : Z :=
  fold_right Z.add 0 (List.map snd (List.filter (fun e => 0 <? snd e) es)).

Definition count_at (q : list string) (t : TreeNode) : Z :=
  match node_at q t with Some n => file_count n | None => 0 end.

Definition size_at (q : list string) (t : TreeNode) : Z :=
  match node_at q t with Some n => total_size n | None => 0 end.

Definition weight (size : Z) : Z := if 0 <? size then size else 0.

(** ** What the tree should hold beyond the aggregates *)

(** Some entry lies in the subtree of the directory reached by [q]. *)
Definition any_under (prefix : string) (q : list string) (es : list (string * Z)) : bool :=
  existsb (under prefix q) es.

(** A path segment: not empty and without separator. *)
Definition good_segment (s : string) : bool := nonempty s && negb (has_slash s).

(** What the renderer shows of a node. *)
Definition node_view (n : TreeNode) : string * Z * Z :=
  (name n, file_count n, total_size n).

(** The node [t] under another name. *)
Definition rename (nm : string) (t : TreeNode) : TreeNode :=
  mkTreeNode nm (children t) (file_count t) (total_size t).

(** The entries with [prefix] put in front of every key. *)
Definition below_prefix (prefix : string) (es : list (string * Z)) : list (string * Z) :=
  List.map (fun e => ((prefix ++ fst e)%string, snd e)) es.

(** Every node but the root carries the name it is filed under. *)
Definition well_named (t : TreeNode) : Prop :=
  forall q d n, node_at (q ++ [d]) t = Some n -> name n = d.

(** ** Listing responses: namespaces, sizes that are no integers, failures *)

(** The document [e] with every tag put in the namespace [ns] (written
    [{uri}]), as the parser gives it for a document with a default
    [xmlns]. *)
Fixpoint qualify (ns : string) (e : Element) : Element :=
  match e with
  | mkElement t x l => mkElement (ns ++ t) x (List.map (qualify ns) l)
  end.

Section ListingResponses.
Context {W : Type} `{Env W}.

(** A [Contents] element with a key. *)
Definition has_key (ns : string) (c : Element) : bool :=
  match text_of ns c "Key" with Some _ => true | None => false end.

(** A [Contents] element with a key and a size text that [int] rejects. *)
Definition bad_size (ns : string) (c : Element) : bool :=
  match text_of ns c "Key", text_of ns c "Size" with
  | Some _, Some s => match py_int s with Some _ => false | None => true end
  | _, _ => false
  end.

(** [fails_after base_url prefix w token pages e w']: asked from [w] with
    [token], the server returns the truncated pages [pages], each request
    carrying the token of the page before, and the next request raises
    [e], leaving the world [w']. *)
Inductive fails_after (base_url prefix : string)
  : W -> option string -> list Page -> exn -> W -> Prop :=
| fails_now w token e w' :
    list_objects_v2 base_url prefix None token 1000 w = (Raise e, w') ->
    fails_after base_url prefix w token [] e w'
| fails_later w token page w1 pages e w' :
    list_objects_v2 base_url prefix None token 1000 w = (Ok page, w1) ->
    is_truncated page = true ->
    fails_after base_url prefix w1 (next_token page) pages e w' ->
    fails_after base_url prefix w token (page :: pages) e w'.
End ListingResponses.

(** A namespaced response with a [Contents] element without key. *)
Definition namespaced_listing : Element :=
  qualify "{http://s3.amazonaws.com/doc/2006-03-01/}"
    (mkElement "ListBucketResult" None
       [mkElement "Contents" None [xml_leaf "Size" "3"];
        xml_contents ("a/b.txt"%string, Some "10"%string);
        xml_leaf "IsTruncated" "TRUE";
        xml_leaf "NextContinuationToken" "t1"]).

(** A server that sends one truncated page and then fails. *)
Definition failing_server : nat -> result Element :=
  scripted [xml_listing [("a.txt"%string, Some "1"%string)] "true" (Some "t1"%string)].

(** ** The double nearest to an integer *)

(** The magnitude of [float(n)] for an integer of magnitude [a]: [a]
    rounded to 53 significant bits, ties to even. *)
Definition round53 (a : Z) : Z :=
  let drop := Z.max 0 (Z.log2 a + 1 - 53) in
  round_half_even a (2 ^ drop) * 2 ^ drop.

(** The least magnitude that [float] refuses: halfway between the largest
    double and 2^1024. *)
Definition float_limit : Z := 2 ^ 1024 - 2 ^ 970.

(** ** The bucket URL *)

(** [build_bucket_base_url] *)
Definition build_bucket_base_url (endpoint tenant bucket : string) : string :=
  let tb := if nonempty tenant then (tenant ++ ":" ++ bucket)%string else bucket in
  (rstrip_char slash endpoint ++ "/" ++ quote ":" tb)%string.

(** What [quote] can write: a kept character or a percent sign. *)
Definition url_char (safe : string) (c : ascii) : bool :=
  Ascii.eqb c "%" || kept safe c.

(** Every character of [s] passes [f]. *)
Fixpoint all_chars (f : ascii -> bool) (s : string) : bool :=
  match s with
  | EmptyString => true
  | String c s' => f c && all_chars f s'
  end.

(** ** The top-level view *)

(** [sorted(l)] for a list of [str]: the order of the code points is the
    order of the UTF-8 bytes, and equal strings cannot be told apart, so
    any sort by [<=] gives the list Python gives. *)
Definition str_le (a b : string) : Prop := String.leb a b = true.

#[export] Instance str_le_dec : RelDecision str_le :=
  fun a b => decide_rel (=) (String.leb a b) true.

Definition py_sorted (l : list string) : list string := merge_sort str_le l.

Section TopLevel.
Context {W : Type} `{Env W}.

(** [list_top_level] *)
Definition list_top_level (base_url : string) : M W (list string * list string) :=
  let* page := list_objects_v2 base_url "" (Some "/"%string) None 1000 in
  let folders := py_sorted (common_prefixes page) in
  let root_files :=
    py_sorted (List.map fst (List.filter (fun e => negb (has_slash (fst e))) (keys page))) in
  ret (folders, root_files).
End TopLevel.

(** A truncated first page of a listing with delimiter. *)
Definition top_level_server : nat -> result Element :=
  scripted
    [mkElement "ListBucketResult" None
       [xml_contents ("zeta.txt"%string, Some "1"%string);
        xml_contents ("README"%string, Some "2"%string);
        mkElement "CommonPrefixes" None [xml_leaf "Prefix" "b/"];
        mkElement "CommonPrefixes" None [xml_leaf "Prefix" "SDC3/"];
        xml_leaf "IsTruncated" "true";
        xml_leaf "NextContinuationToken" "t1"]].

(* ================================================================= *)
(** * Theorems *)

Example tree_scenario :
  match build_tree_of "" [("a/b.txt"%string, 10); ("a/c.txt"%string, 20); ("root.txt"%string, 5)] with
  | Some root =>
      file_count root = 3 /\ total_size root = 35 /\
      (file_count <$> node_at ["a"%string] root) = Some 2 /\
      (total_size <$> node_at ["a"%string] root) = Some 30
  | None => False
  end.
Proof. vm_compute. repeat split; reflexivity. Qed.

(** ** The tree aggregator *)

Section TreeFacts.
Implicit Types (t : TreeNode) (q ds : list string) (size : Z).

Lemma is_prefix_nil_r q : is_prefix q [] = true -> q = [].
Proof. destruct q; [reflexivity | discriminate]. Qed.

Lemma count_at_init nm q : count_at q (TreeNode_init nm) = 0.
Proof. destruct q; reflexivity. Qed.

Lemma size_at_init nm q : size_at q (TreeNode_init nm) = 0.
Proof. destruct q; reflexivity. Qed.

Lemma node_at_cons_eq t d c q :
  children t !! d = Some c -> node_at (d :: q) t = node_at q c.
Proof. intros H. simpl. rewrite H. reflexivity. Qed.

Lemma node_at_cons_none t d q :
  children t !! d = None -> node_at (d :: q) t = None.
Proof. intros H. simpl. rewrite H. reflexivity. Qed.

Lemma node_at_set_child_eq t d c q :
  node_at (d :: q) (set_child t d c) = node_at q c.
Proof. simpl. rewrite lookup_insert_eq. reflexivity. Qed.

Lemma node_at_set_child_ne t d x c q :
  d <> x -> node_at (x :: q) (set_child t d c) = node_at (x :: q) t.
Proof. intros H. simpl. rewrite lookup_insert_ne by exact H. reflexivity. Qed.

(** Creating the directories of a path changes no aggregate: an existing
    node keeps its counters and a new one starts at zero. *)
Lemma create_path_agg ds : forall t q,
  count_at q (create_path ds t) = count_at q t /\
  size_at q (create_path ds t) = size_at q t.
Proof.
  induction ds as [|d ds IH]; intros t q; [split; reflexivity|].
  simpl. unfold _get_or_create_child.
  destruct q as [|x q].
  - destruct (children t !! d); split; reflexivity.
  - destruct (String.eqb_spec d x) as [->|Hne].
    + unfold count_at, size_at.
      destruct (children t !! x) as [c|] eqn:Hc.
      * rewrite node_at_set_child_eq, (node_at_cons_eq _ _ _ _ Hc).
        apply IH.
      * rewrite node_at_set_child_eq, (node_at_cons_none _ _ _ Hc).
        fold (count_at q (create_path ds (TreeNode_init x)))
             (size_at q (create_path ds (TreeNode_init x))).
        destruct (IH (TreeNode_init x) q) as [-> ->].
        rewrite count_at_init, size_at_init. split; reflexivity.
    + unfold count_at, size_at.
      destruct (children t !! d) as [c|] eqn:Hc.
      * rewrite node_at_set_child_ne by exact Hne. split; reflexivity.
      * rewrite !node_at_set_child_ne by exact Hne. split; reflexivity.
Qed.

(** After [create_path] every directory of the path is there. *)
Lemma create_path_reaches ds : forall t, is_Some (node_at ds (create_path ds t)).
Proof.
  induction ds as [|d ds IH]; intros t; [eexists; reflexivity|].
  simpl create_path. unfold _get_or_create_child.
  destruct (children t !! d); rewrite node_at_set_child_eq; apply IH.
Qed.

Lemma node_at_add_file_is_Some ds size t :
  is_Some (node_at ds t) -> is_Some (node_at ds (add_file size t)).
Proof. destruct ds; simpl; [eauto | exact id]. Qed.

Lemma add_file_agg size t q :
  count_at q (add_file size t) = count_at q t + (if is_prefix q [] then 1 else 0) /\
  size_at q (add_file size t) = size_at q t + (if is_prefix q [] then weight size else 0).
Proof.
  destruct q as [|x q]; unfold count_at, size_at, weight; simpl.
  - destruct (0 <? size); split; lia.
  - destruct (children t !! x) as [c|]; [destruct (node_at q c)|]; split; lia.
Qed.

(** The walk over existing directories cannot raise, and it adds the
    entry to exactly the nodes on the path, the start excluded. *)
Lemma add_along_agg ds size : forall t,
  is_Some (node_at ds t) ->
  exists t', add_along ds size t = Some t' /\
    forall q,
      count_at q t' = count_at q t
        + (if is_prefix q ds && negb (is_prefix q []) then 1 else 0) /\
      size_at q t' = size_at q t
        + (if is_prefix q ds && negb (is_prefix q []) then weight size else 0).
Proof.
  induction ds as [|d ds IH]; intros t Hreach.
  - exists t. split; [reflexivity|]. intros q.
    destruct q; simpl; split; lia.
  - simpl in Hreach. simpl add_along.
    destruct (children t !! d) as [c|] eqn:Hc; [|destruct Hreach; discriminate].
    destruct (IH (add_file size c) (node_at_add_file_is_Some _ _ _ Hreach))
      as (c' & -> & Hagg).
    eexists. split; [reflexivity|]. intros [|x q].
    + simpl. unfold count_at, size_at. simpl. split; lia.
    + simpl is_prefix. destruct (String.eqb_spec x d) as [->|Hne].
      * unfold count_at, size_at.
        rewrite node_at_set_child_eq, (node_at_cons_eq _ _ _ _ Hc).
        fold (count_at q c') (size_at q c') (count_at q c) (size_at q c).
        destruct (Hagg q) as [H1 H2]. rewrite H1, H2.
        destruct (add_file_agg size c q) as [H3 H4]. rewrite H3, H4.
        destruct (is_prefix q ds) eqn:Hp; destruct q; simpl in *; split; lia.
      * unfold count_at, size_at.
        rewrite node_at_set_child_ne by congruence. simpl. split; lia.
Qed.

Lemma create_path_short prefix key t :
  (if (1 <? length (key_parts prefix key))%nat
   then create_path (key_dirs prefix key) t else t)
  = create_path (key_dirs prefix key) t.
Proof.
  unfold key_dirs. destruct (key_parts prefix key) as [|a [|b l]]; reflexivity.
Qed.

(** One ingested entry: no exception, and every node above the file
    (the root included) gains one file and the entry's positive size. *)
Lemma ingest_agg prefix t key size :
  exists t', ingest prefix t (key, size) = Some t' /\
    forall q,
      count_at q t' = count_at q t + (if under prefix q (key, size) then 1 else 0) /\
      size_at q t' = size_at q t + (if under prefix q (key, size) then weight size else 0).
Proof.
  unfold ingest, under. simpl fst. rewrite create_path_short.
  fold (key_dirs prefix key).
  destruct (add_along_agg (key_dirs prefix key) size _
              (create_path_reaches (key_dirs prefix key) t)) as (t2 & -> & Hagg).
  eexists. split; [reflexivity|]. intros q.
  destruct (add_file_agg size t2 q) as [H1 H2].
  destruct (Hagg q) as [H3 H4].
  destruct (create_path_agg (key_dirs prefix key) t q) as [H5 H6].
  rewrite H1, H2, H3, H4, H5, H6.
  destruct q as [|x q]; simpl.
  - split; lia.
  - destruct (key_dirs prefix key) as [|y l]; simpl; [split; lia|].
    destruct (String.eqb x y), (is_prefix q l); simpl; split; lia.
Qed.

Lemma sum_positive_cons e es :
  sum_positive (e :: es) = weight (snd e) + sum_positive es.
Proof.
  unfold sum_positive, weight. simpl. destruct (0 <? snd e); reflexivity.
Qed.

(** The whole loop, from any starting tree. *)
Lemma build_tree_loop_agg prefix es : forall t,
  exists t', build_tree_loop prefix t es = Some t' /\
    forall q,
      count_at q t' = count_at q t + Z.of_nat (length (files_under prefix q es)) /\
      size_at q t' = size_at q t + sum_positive (files_under prefix q es).
Proof.
  induction es as [|[key size] es IH]; intros t.
  - exists t. split; [reflexivity|]. intros q. unfold sum_positive. simpl. split; lia.
  - cbn [build_tree_loop].
    destruct (ingest_agg prefix t key size) as (t1 & -> & H1).
    destruct (IH t1) as (t' & Ht' & H2).
    exists t'. split; [exact Ht'|]. intros q.
    destruct (H1 q) as [A1 A2]. destruct (H2 q) as [B1 B2].
    rewrite B1, B2, A1, A2. unfold files_under. simpl List.filter.
    destruct (under prefix q (key, size)).
    + rewrite sum_positive_cons. simpl length. simpl snd. split; lia.
    + split; lia.
Qed.
End TreeFacts.

(** ** Consumers of the listing whose body has no effect *)

Section PureConsumers.
Context {W : Type} `{Env W}.
Context {A : Type} (body : A -> string * Z -> M W A) (f : A -> string * Z -> A).
Hypothesis body_pure : forall a e w, body a e w = (Ok (f a e), w).

Lemma for_each_pure xs : forall acc w,
  for_each xs body acc w = (Ok (fold_left f xs acc), w).
Proof.
  induction xs as [|x xs IH]; intros acc w; [reflexivity|].
  simpl. unfold bind. rewrite body_pure. apply IH.
Qed.
End PureConsumers.

Lemma fold_left_snoc {X} (xs : list X) : forall l,
  fold_left (fun l e => l ++ [e]) xs l = l ++ xs.
Proof.
  induction xs as [|x xs IH]; intros l; simpl.
  - symmetry. apply app_nil_r.
  - rewrite IH, <- app_assoc. reflexivity.
Qed.

(** The loop that collects what it is given. *)
Lemma for_each_snoc {W} (xs l : list (string * Z)) (w : W) :
  for_each xs (fun l e => ret (l ++ [e])) l w = (Ok (l ++ xs), w).
Proof.
  rewrite (for_each_pure (fun l e => ret (l ++ [e])) (fun l e => l ++ [e]))
    by reflexivity.
  rewrite fold_left_snoc. reflexivity.
Qed.

Section PureIteration.
Context {W : Type} `{Env W}.
Context {A : Type} (body : A -> string * Z -> M W A) (f : A -> string * Z -> A).
Hypothesis body_pure : forall a e w, body a e w = (Ok (f a e), w).
Variables (base_url prefix : string) (acc0 : A).

(** A consumer without effects sees the world exactly as the bare
    listing does, and ends with the fold of its body over what the
    listing yields. *)
Lemma iter_pure_gen fuel : forall token l w,
  iter_all_objects fuel base_url prefix token body (fold_left f l acc0) w
  = (map_result (fun es => fold_left f es acc0)
       (fst (iter_all_objects fuel base_url prefix token (fun l e => ret (l ++ [e])) l w)),
     snd (iter_all_objects fuel base_url prefix token (fun l e => ret (l ++ [e])) l w)).
Proof.
  induction fuel as [|fuel IH]; intros token l w; [reflexivity|].
  cbn [iter_all_objects]. unfold bind at 1 3 5.
  destruct (list_objects_v2 base_url prefix None token 1000 w) as [[page| |] w1];
    [|reflexivity|reflexivity].
  unfold bind.
  rewrite (for_each_pure body f body_pure).
  rewrite for_each_snoc, <- fold_left_app.
  destruct (is_truncated page); cbn [negb].
  - apply IH.
  - reflexivity.
Qed.

Lemma iter_pure fuel w :
  iter_all_objects fuel base_url prefix None body acc0 w
  = (map_result (fun es => fold_left f es acc0) (fst (all_objects fuel base_url prefix w)),
     snd (all_objects fuel base_url prefix w)).
Proof. exact (iter_pure_gen fuel None [] w). Qed.
End PureIteration.

Section Consumers.
Context {W : Type} `{Env W}.

Lemma list_recursive_run fuel base_url prefix w :
  list_recursive fuel base_url prefix w
  = (map_result list_recursive_of (fst (all_objects fuel base_url prefix w)),
     snd (all_objects fuel base_url prefix w)).
Proof.
  unfold list_recursive, list_recursive_of.
  apply (iter_pure _ _). intros [c t] [k s] w0. reflexivity.
Qed.

Lemma build_tree_loop_fold prefix es : forall t,
  build_tree_loop prefix t es
  = Some (fold_left (fun t e => default t (ingest prefix t e)) es t).
Proof.
  induction es as [|[k s] es IH]; intros t; [reflexivity|].
  cbn [build_tree_loop fold_left].
  destruct (ingest_agg prefix t k s) as (t' & -> & _). apply IH.
Qed.

(** [build_tree] never raises the [KeyError] of its walk: it returns
    the tree of the entries whenever the listing completes. *)
Lemma build_tree_run fuel base_url prefix w :
  build_tree fuel base_url prefix w
  = (map_result (fun es => default (build_tree_root prefix) (build_tree_of prefix es))
       (fst (all_objects fuel base_url prefix w)),
     snd (all_objects fuel base_url prefix w)).
Proof.
  unfold build_tree.
  rewrite (iter_pure _ (fun t e => default t (ingest prefix t e))).
  - destruct (all_objects fuel base_url prefix w) as [[es| |] w']; simpl; try reflexivity.
    unfold build_tree_of. rewrite build_tree_loop_fold. reflexivity.
  - intros t [k s] w0. destruct (ingest_agg prefix t k s) as (t' & -> & _). reflexivity.
Qed.
End Consumers.

(** ** Claims about the tree *)

Lemma files_under_root prefix es : files_under prefix [] es = es.
Proof.
  unfold files_under, under. simpl.
  induction es as [|e es IH]; simpl; [reflexivity|]. rewrite IH. reflexivity.
Qed.

Lemma sum_positive_perm es es' :
  Permutation es es' -> sum_positive es = sum_positive es'.
Proof.
  induction 1 as [|e l l' _ IH|a b l|l1 l2 l3 _ IH1 _ IH2].
  - reflexivity.
  - rewrite !sum_positive_cons, IH. reflexivity.
  - rewrite !sum_positive_cons. lia.
  - congruence.
Qed.

Lemma build_tree_of_root prefix es :
  exists root, build_tree_of prefix es = Some root /\
    file_count root = Z.of_nat (length es) /\ total_size root = sum_positive es.
Proof.
  destruct (build_tree_loop_agg prefix es (build_tree_root prefix)) as (root & Hroot & Hagg).
  exists root. split; [exact Hroot|].
  destruct (Hagg []) as [H1 H2]. rewrite files_under_root in H1, H2.
  unfold count_at, size_at in H1, H2. simpl in H1, H2.
  unfold build_tree_root in H1, H2.
  destruct (nonempty prefix); simpl in H1, H2; split; lia.
Qed.

(** C1: over any sequence of entries [build_tree] returns a root whose
    [file_count] is the number of entries and whose [total_size] is the sum
    of the sizes that are > 0; ingesting the entries in another order gives
    a root with the same two aggregates. *)
Theorem build_tree_root_aggregate (prefix : string) (es es' : list (string * Z)) :
  Permutation es es' ->
  exists root root',
    build_tree_of prefix es = Some root /\
    build_tree_of prefix es' = Some root' /\
    file_count root = Z.of_nat (length es) /\
    total_size root = sum_positive es /\
    file_count root' = file_count root /\
    total_size root' = total_size root.
Proof.
  intros Hperm.
  destruct (build_tree_of_root prefix es) as (root & Hr & Hc & Hs).
  destruct (build_tree_of_root prefix es') as (root' & Hr' & Hc' & Hs').
  exists root, root'. repeat split; try assumption.
  - rewrite Hc, Hc'. f_equal. symmetry. apply Permutation_length. exact Hperm.
  - rewrite Hs, Hs'. symmetry. apply sum_positive_perm. exact Hperm.
Qed.

Lemma build_tree_root_aggregate_witness :
  let es := [("a/b.txt"%string, 10); ("a/c.txt"%string, -1); ("root.txt"%string, 5)] in
  let es' := [("a/c.txt"%string, -1); ("a/b.txt"%string, 10); ("root.txt"%string, 5)] in
  exists root root',
    build_tree_of "" es = Some root /\
    build_tree_of "" es' = Some root' /\
    file_count root = Z.of_nat (length es) /\
    total_size root = sum_positive es /\
    file_count root' = file_count root /\
    total_size root' = total_size root.
Proof.
  intros es es'. apply (build_tree_root_aggregate "" es es').
  apply perm_swap.
Defined.

(** C2: once [build_tree] has returned, every node of the tree, reached
    from the root by the directory names [q], counts in [file_count] the
    entries whose key lies below that directory and holds in [total_size]
    the sum of their sizes that are > 0. *)
Theorem build_tree_subtree_aggregate (prefix : string) (es : list (string * Z))
    (root : TreeNode) (q : list string) (node : TreeNode) :
  build_tree_of prefix es = Some root ->
  node_at q root = Some node ->
  file_count node = Z.of_nat (length (files_under prefix q es)) /\
  total_size node = sum_positive (files_under prefix q es).
Proof.
  intros Hroot Hnode.
  destruct (build_tree_loop_agg prefix es (build_tree_root prefix)) as (root0 & Hroot0 & Hagg).
  unfold build_tree_of in Hroot. rewrite Hroot0 in Hroot. injection Hroot as ->.
  destruct (Hagg q) as [H1 H2].
  unfold count_at, size_at in H1, H2. rewrite Hnode in H1, H2.
  assert (Hz : node_at q (build_tree_root prefix) = None \/ q = []).
  { destruct q; [right; reflexivity|left].
    unfold build_tree_root. destruct (nonempty prefix); reflexivity. }
  destruct Hz as [Hz| ->].
  - rewrite Hz in H1, H2. split; lia.
  - unfold build_tree_root in H1, H2. destruct (nonempty prefix); simpl in H1, H2; split; lia.
Qed.

Lemma build_tree_subtree_aggregate_witness :
  let es := [("a/b.txt"%string, 10); ("a/c.txt"%string, 20); ("root.txt"%string, 5)] in
  exists root node,
    build_tree_of "" es = Some root /\ node_at ["a"%string] root = Some node /\
    file_count node = Z.of_nat (length (files_under "" ["a"%string] es)) /\
    total_size node = sum_positive (files_under "" ["a"%string] es).
Proof.
  intros es.
  destruct (build_tree_of "" es) as [root|] eqn:Hroot; [|vm_compute in Hroot; discriminate].
  destruct (node_at ["a"%string] root) as [node|] eqn:Hnode.
  - exists root, node. split; [reflexivity|]. split; [exact Hnode|].
    exact (build_tree_subtree_aggregate "" es root ["a"%string] node Hroot Hnode).
  - vm_compute in Hroot. injection Hroot as <-. vm_compute in Hnode. discriminate.
Defined.

Lemma startswith_refl s : startswith s s = true.
Proof. induction s as [|c s IH]; simpl; [reflexivity|]. rewrite Ascii.eqb_refl. exact IH. Qed.

Lemma str_drop_all s : str_drop (String.length s) s = EmptyString.
Proof. induction s as [|c s IH]; simpl; [reflexivity | exact IH]. Qed.

(** A key equal to the prefix has no path segment below it. *)
Lemma key_parts_prefix prefix : key_parts prefix prefix = [].
Proof.
  unfold key_parts, rel_key. rewrite startswith_refl, str_drop_all.
  destruct prefix; reflexivity.
Qed.

(** C7: an entry whose key is the scoping prefix itself is counted at the
    root and nowhere else: the loop body does not raise, the root's
    [file_count] grows by exactly 1, its children (and name) are as before,
    and its [total_size] is as before when the size is not > 0. *)
Theorem ingest_key_equal_to_prefix (prefix : string) (root : TreeNode) (size : Z) :
  exists root',
    ingest prefix root (prefix, size) = Some root' /\
    file_count root' = file_count root + 1 /\
    children root' = children root /\
    name root' = name root /\
    (size <= 0 -> total_size root' = total_size root).
Proof.
  unfold ingest. rewrite key_parts_prefix. simpl.
  eexists. split; [reflexivity|]. simpl. repeat split.
  intros Hsize. destruct (Z.ltb_spec 0 size); [lia | reflexivity].
Qed.

Lemma ingest_key_equal_to_prefix_witness :
  exists root',
    build_tree_of "SDC3/" [("SDC3/"%string, 0)] = Some root' /\
    file_count root' = 1 /\ children root' = ∅ /\ total_size root' = 0.
Proof.
  destruct (ingest_key_equal_to_prefix "SDC3/" (build_tree_root "SDC3/") 0)
    as (root' & Hin & Hc & Hch & _ & Hs).
  exists root'. unfold build_tree_of. cbn [build_tree_loop]. rewrite Hin.
  split; [reflexivity|]. split; [exact Hc|]. split; [exact Hch|].
  apply Hs. lia.
Defined.

Lemma list_recursive_of_fold es : forall c t,
  fold_left
    (fun '(count, total_bytes) '(key, size) =>
       (count + 1, if 0 <? size then total_bytes + size else total_bytes))
    es (c, t)
  = (c + Z.of_nat (length es), t + sum_positive es).
Proof.
  induction es as [|[k s] es IH]; intros c t.
  - unfold sum_positive. simpl. f_equal; lia.
  - cbn [fold_left]. rewrite IH, sum_positive_cons. unfold weight. simpl snd.
    destruct (0 <? s); f_equal; simpl length; lia.
Qed.

Lemma list_recursive_of_total es :
  list_recursive_of es = (Z.of_nat (length es), sum_positive es).
Proof. unfold list_recursive_of. rewrite list_recursive_of_fold. reflexivity. Qed.

Section FlatAndTree.
Context {W : Type} `{Env W}.

(** C9: the pair [(count, total_bytes)] of [list_recursive] is the pair
    [(file_count, total_size)] of the root of [build_tree]: on every
    sequence of entries, and for every run of the two functions from the
    same world, which then also end alike (same world, same exception,
    or both still paging). *)
Theorem list_recursive_agrees_with_build_tree
    (fuel : nat) (base_url prefix : string) (w : W) :
  (forall es, exists root,
      build_tree_of prefix es = Some root /\
      list_recursive_of es = (file_count root, total_size root)) /\
  match list_recursive fuel base_url prefix w, build_tree fuel base_url prefix w with
  | (Ok (count, total_bytes), w1), (Ok root, w2) =>
      count = file_count root /\ total_bytes = total_size root /\ w1 = w2
  | (Raise e1, w1), (Raise e2, w2) => e1 = e2 /\ w1 = w2
  | (OutOfFuel, w1), (OutOfFuel, w2) => w1 = w2
  | _, _ => False
  end.
Proof.
  split.
  - intros es. destruct (build_tree_of_root prefix es) as (root & Hr & Hc & Hs).
    exists root. split; [exact Hr|]. rewrite list_recursive_of_total, Hc, Hs. reflexivity.
  - rewrite list_recursive_run, build_tree_run.
    destruct (all_objects fuel base_url prefix w) as [[es| |] w']; simpl; auto.
    destruct (build_tree_of_root prefix es) as (root & -> & Hc & Hs).
    rewrite list_recursive_of_total. simpl. auto.
Qed.
End FlatAndTree.

(** ** Claims about the pagination *)

Section PaginationFacts.
Context {W : Type} `{Env W}.
Variables (base_url prefix : string).

Lemma paginates_nonempty w token pages w' :
  paginates base_url prefix w token pages w' -> (0 < length pages)%nat.
Proof. destruct 1; simpl; lia. Qed.

(** The generator yields the keys of the pages, page after page. *)
Lemma iter_snoc_paginates w token pages w' :
  paginates base_url prefix w token pages w' ->
  forall fuel l, (length pages <= fuel)%nat ->
    iter_all_objects fuel base_url prefix token (fun l e => ret (l ++ [e])) l w
    = (Ok (l ++ concat (List.map keys pages)), w').
Proof.
  induction 1 as [w token page w' Hpage Hlast
                 |w token page w1 pages w' Hpage Hmore _ IH];
    intros [|fuel] l Hfuel; simpl in Hfuel; try lia;
    cbn [iter_all_objects]; unfold bind; rewrite Hpage, for_each_snoc.
  - rewrite Hlast. simpl. rewrite app_nil_r. reflexivity.
  - rewrite Hmore. cbn [negb].
    rewrite IH by lia. simpl. rewrite <- app_assoc. reflexivity.
Qed.

(** With less fuel than pages the loop is still asking. *)
Lemma iter_snoc_short w token pages w' :
  paginates base_url prefix w token pages w' ->
  forall fuel l, (fuel < length pages)%nat ->
    fst (iter_all_objects fuel base_url prefix token (fun l e => ret (l ++ [e])) l w)
    = OutOfFuel.
Proof.
  induction 1 as [w token page w' Hpage Hlast
                 |w token page w1 pages w' Hpage Hmore Hrest IH];
    intros [|fuel] l Hfuel; simpl in Hfuel; try lia; try reflexivity.
  cbn [iter_all_objects]. unfold bind. rewrite Hpage, for_each_snoc, Hmore. cbn [negb]. apply IH. lia.
Qed.

(** Every completed listing went through a chain of pages. *)
Lemma iter_snoc_inv fuel : forall token l w es w',
  iter_all_objects fuel base_url prefix token (fun l e => ret (l ++ [e])) l w = (Ok es, w') ->
  exists pages,
    paginates base_url prefix w token pages w' /\
    es = l ++ concat (List.map keys pages) /\ (length pages <= fuel)%nat.
Proof.
  induction fuel as [|fuel IH]; intros token l w es w' Hrun; [discriminate|].
  cbn [iter_all_objects] in Hrun. unfold bind in Hrun.
  destruct (list_objects_v2 base_url prefix None token 1000 w) as [[page| |] w1] eqn:Hpage;
    try discriminate.
  rewrite for_each_snoc in Hrun.
  destruct (is_truncated page) eqn:Htr; cbn [negb] in Hrun.
  - destruct (IH _ _ _ _ _ Hrun) as (pages & Hp & -> & Hlen).
    exists (page :: pages). split; [eapply paginates_next; eassumption|].
    simpl. rewrite <- app_assoc. split; [reflexivity | lia].
  - injection Hrun as <- <-. exists [page].
    split; [apply paginates_last; assumption|]. simpl. rewrite app_nil_r.
    split; [reflexivity | lia].
Qed.

(** C3: when the server returns the pages [pages] (the last one being
    the first that is not truncated), [iter_all_objects] yields the keys
    of the first page, then those of the second, and so on: the
    concatenation of the pages' keys, in the server's order; and whatever
    a completed listing has yielded is the concatenation of the keys of
    the pages the server returned. *)
Theorem iter_all_objects_concatenates_pages (w : W) (fuel : nat) :
  (forall pages w',
      paginates base_url prefix w None pages w' ->
      (length pages <= fuel)%nat ->
      all_objects fuel base_url prefix w = (Ok (concat (List.map keys pages)), w')) /\
  (forall es w',
      all_objects fuel base_url prefix w = (Ok es, w') ->
      exists pages,
        paginates base_url prefix w None pages w' /\ es = concat (List.map keys pages)).
Proof.
  split.
  - intros pages w' Hp Hfuel. unfold all_objects.
    rewrite (iter_snoc_paginates _ _ _ _ Hp fuel [] Hfuel). reflexivity.
  - intros es w' Hrun. destruct (iter_snoc_inv _ _ _ _ _ _ Hrun) as (pages & Hp & -> & _).
    exists pages. split; [exact Hp | reflexivity].
Qed.

(** C4, as the code has it: when the server comes to a page that is not
    truncated, the loop stops there, after one request per page and no
    sooner; and the loop ends normally in no other way: a listing that
    completes has gone through such pages. *)
Theorem iter_all_objects_stops_at_last_page (w : W) (fuel : nat) :
  (forall pages w',
      paginates base_url prefix w None pages w' ->
      (fst (all_objects fuel base_url prefix w) <> OutOfFuel
       <-> (length pages <= fuel)%nat)) /\
  (forall es w',
      all_objects fuel base_url prefix w = (Ok es, w') ->
      exists pages,
        paginates base_url prefix w None pages w' /\ (length pages <= fuel)%nat).
Proof.
  split.
  - intros pages w' Hp. split.
    + intros Hrun. destruct (Nat.le_gt_cases (length pages) fuel) as [|Hlt]; [assumption|].
      exfalso. apply Hrun. exact (iter_snoc_short _ _ _ _ Hp fuel [] Hlt).
    + intros Hfuel. unfold all_objects.
      rewrite (iter_snoc_paginates _ _ _ _ Hp fuel [] Hfuel). discriminate.
  - intros es w' Hrun. destruct (iter_snoc_inv _ _ _ _ _ _ Hrun) as (pages & Hp & _ & Hlen).
    exists pages. split; assumption.
Qed.
End PaginationFacts.

Lemma two_page_server_paginates :
  exists w',
    paginates "u" "" (sim_start (scripted two_page_server) ∅ ∅) None two_pages w'.
Proof.
  eexists. unfold two_pages.
  eapply paginates_next; [vm_compute; reflexivity | reflexivity |].
  eapply paginates_last; [vm_compute; reflexivity | reflexivity].
Qed.

Lemma iter_all_objects_concatenates_pages_witness :
  exists w',
    paginates "u" "" (sim_start (scripted two_page_server) ∅ ∅) None two_pages w' /\
    all_objects 2 "u" "" (sim_start (scripted two_page_server) ∅ ∅)
    = (Ok [("a/b.txt"%string, 10); ("a/c.txt"%string, -1); ("root.txt"%string, 5)], w').
Proof.
  eassert (Hp : paginates "u" "" (sim_start (scripted two_page_server) ∅ ∅) None two_pages _).
  { unfold two_pages.
    eapply paginates_next; [vm_compute; reflexivity | reflexivity |].
    eapply paginates_last; [vm_compute; reflexivity | reflexivity]. }
  eexists. split; [exact Hp|].
  exact (proj1 (iter_all_objects_concatenates_pages "u" "" _ 2%nat) _ _ Hp (le_n 2)).
Defined.

Lemma iter_all_objects_stops_at_last_page_witness :
  fst (all_objects 2 "u" "" (sim_start (scripted two_page_server) ∅ ∅)) <> OutOfFuel
  <-> (length two_pages <= 2)%nat.
Proof.
  eassert (Hp : paginates "u" "" (sim_start (scripted two_page_server) ∅ ∅) None two_pages _).
  { unfold two_pages.
    eapply paginates_next; [vm_compute; reflexivity | reflexivity |].
    eapply paginates_last; [vm_compute; reflexivity | reflexivity]. }
  exact (proj1 (iter_all_objects_stops_at_last_page "u" "" _ 2%nat) _ _ Hp).
Defined.

Lemma stuck_server_page (w : Sim) token :
  sim_listings w = stuck_server ->
  exists w1,
    list_objects_v2 "u" "" None token 1000 w = (Ok stuck_page, w1) /\
    sim_listings w1 = stuck_server.
Proof.
  intros Hsrv. eexists. split.
  - unfold list_objects_v2, bind. simpl http_get_xml. rewrite Hsrv.
    unfold stuck_server at 1. reflexivity.
  - simpl. first [exact Hsrv | reflexivity].
Qed.

Lemma stuck_server_loops fuel : forall token l (w : Sim),
  sim_listings w = stuck_server ->
  fst (iter_all_objects fuel "u" "" token (fun l e => ret (l ++ [e])) l w) = OutOfFuel.
Proof.
  induction fuel as [|fuel IH]; intros token l w Hsrv; [reflexivity|].
  cbn [iter_all_objects]. unfold bind.
  destruct (stuck_server_page w token Hsrv) as (w1 & -> & Hsrv1).
  rewrite for_each_snoc. cbn [is_truncated stuck_page negb next_token]. apply IH. exact Hsrv1.
Qed.

(** C4 fails: against a server that answers every request with a truncated
    page carrying no continuation token, the loop asks again without token
    and is never done, whatever the fuel. *)
Lemma iter_all_objects_may_not_terminate :
  ~ (exists fuel, fst (all_objects fuel "u" "" (sim_start stuck_server ∅ ∅)) <> OutOfFuel).
Proof.
  intros [fuel Hends]. apply Hends. apply stuck_server_loops. reflexivity.
Qed.

(** The request after a truncated page without token carries none. *)
Example stuck_server_requests :
  sim_requests (snd (all_objects 2 "u" "" (sim_start stuck_server ∅ ∅)))
  = ["u?list-type=2&max-keys=1000"; "u?list-type=2&max-keys=1000"]%string.
Proof. vm_compute. reflexivity. Qed.

(** ** Claims about the download *)

Section SkipPolicy.
Context {W : Type} `{Env W}.
Variables (base_url key dest_root : string) (size : option Z).

Local Abbreviation local_path := (os_path_join dest_root key).

Lemma size_matches_spec w :
  exists b, size_matches local_path size w = (Ok b, w) /\
    (b = true <-> known_size_matches local_path size w).
Proof.
  unfold size_matches, known_size_matches, has_file.
  destruct size as [sz|].
  - destruct (os_path_exists local_path w) eqn:Hex.
    + destruct (os_path_getsize local_path w) as [n|] eqn:Hsz.
      * exists (n =? sz). split; [reflexivity|]. rewrite Z.eqb_eq. split.
        -- intros ->. exists sz. auto.
        -- intros (sz' & [= <-] & _ & [= ->]). reflexivity.
      * exists false. split; [reflexivity|]. split; [discriminate|].
        intros (sz' & _ & _ & Hn). discriminate.
    + exists false. split; [reflexivity|]. split; [discriminate|].
      intros (sz' & _ & Hn & _). discriminate.
  - exists false. split; [reflexivity|]. split; [discriminate|].
    intros (sz' & Hn & _). discriminate.
Qed.

Lemma download_object_after_parent (w w1 : W) :
  ensure_parent local_path w = (Ok tt, w1) ->
  (known_size_matches local_path size w1 ->
     download_object base_url key dest_root size w = (Ok (local_path, false), w1)) /\
  (~ known_size_matches local_path size w1 ->
     download_object base_url key dest_root size w
     = (map_result (fun _ => (local_path, true))
          (fst (http_get_stream base_url key local_path w1)),
        snd (http_get_stream base_url key local_path w1))).
Proof.
  intros Hparent.
  assert (Hrun : download_object base_url key dest_root size w
                 = (let* skip := size_matches local_path size in
                    if skip : bool then ret (local_path, false)
                    else let* _ := http_get_stream base_url key local_path in
                         ret (local_path, true)) w1).
  { unfold download_object. unfold bind at 1. rewrite Hparent. reflexivity. }
  rewrite Hrun. unfold bind at 1 3.
  destruct (size_matches_spec w1) as (b & -> & Hb).
  destruct b.
  - split; [reflexivity|]. intros Hn. exfalso. apply Hn, Hb. reflexivity.
  - split; [intros Hc; apply Hb in Hc; discriminate|]. intros _.
    unfold bind. destruct (http_get_stream base_url key local_path w1) as [[[]| |] w2];
      reflexivity.
Qed.

(** C5, as the code has it: [download_object] returns [downloaded = False]
    exactly when, the parent directory being there, the size is known and
    a local file of exactly that size exists, and it then fetches nothing;
    in every other case it performs the GET, and it returns
    [downloaded = True] when the GET succeeds, the exception of a failing
    GET being raised instead. *)
Theorem download_object_skip_policy (w : W) :
  ((exists p w2, download_object base_url key dest_root size w = (Ok (p, false), w2))
   <-> exists w1, ensure_parent local_path w = (Ok tt, w1) /\
                  known_size_matches local_path size w1) /\
  (forall w1,
      ensure_parent local_path w = (Ok tt, w1) ->
      (known_size_matches local_path size w1 ->
         download_object base_url key dest_root size w = (Ok (local_path, false), w1)) /\
      (~ known_size_matches local_path size w1 ->
         download_object base_url key dest_root size w
         = (map_result (fun _ => (local_path, true))
              (fst (http_get_stream base_url key local_path w1)),
            snd (http_get_stream base_url key local_path w1)))).
Proof.
  split; [|exact (download_object_after_parent w)].
  split.
  - intros (p & w2 & Hret).
    destruct (ensure_parent local_path w) as [[[]| |] w1] eqn:Hparent;
      try (unfold download_object, bind in Hret; rewrite Hparent in Hret; discriminate).
    exists w1. split; [reflexivity|].
    destruct (download_object_after_parent w w1 Hparent) as [_ Hfetch].
    destruct (size_matches_spec w1) as (b & _ & Hb).
    destruct b; [apply Hb; reflexivity|].
    rewrite Hfetch in Hret by (intros Hc; apply Hb in Hc; discriminate).
    destruct (http_get_stream base_url key local_path w1) as [[[]| |] w3];
      simpl in Hret; discriminate.
  - intros (w1 & Hparent & Hcond).
    exists local_path, w1. exact (proj1 (download_object_after_parent w w1 Hparent) Hcond).
Qed.
End SkipPolicy.

Lemma download_object_skip_policy_witness :
  download_object "u" "k" "dest" (Some 100) one_file_world
  = (Ok ("dest/k"%string, false), one_file_world).
Proof.
  refine (proj1 (proj2 (download_object_skip_policy "u" "k" "dest" (Some 100)
                          one_file_world) one_file_world _) _).
  - reflexivity.
  - exists 100. split; [reflexivity|]. split; reflexivity.
Defined.

(** The scenario of the size mismatch: remote size 101, so the file is
    fetched again. *)
Example download_object_refetch :
  fst (download_object "u" "k" "dest" (Some 101) one_file_world)
  = Ok ("dest/k"%string, true).
Proof. reflexivity. Qed.

(** C5 fails as stated: with no local file and an object the server does
    not have, the skip condition is false, the GET is performed and fails,
    and [download_object] raises instead of returning [downloaded = True]. *)
Lemma download_object_may_raise :
  let w := sim_start (scripted []) ∅ ∅ in
  ~ known_size_matches (os_path_join "dest" "x") (Some 5) w /\
  fst (download_object "u" "x" "dest" (Some 5) w) = Raise RuntimeError /\
  fst (download_object "u" "x" "dest" (Some 5) w) <> Ok ("dest/x"%string, true).
Proof.
  intros w. split; [|split; [reflexivity | discriminate]].
  intros (sz & _ & Hex & _). discriminate.
Qed.

(** ** The simulated file system *)

Lemma split_char_nonempty sep s : split_char sep s <> [].
Proof.
  destruct s as [|c s]; [discriminate|]. cbn [split_char].
  destruct (Ascii.eqb c sep); [discriminate|].
  destruct (split_char sep s); discriminate.
Qed.

Lemma split_char_app sep (a b : string) :
  split_char sep (a ++ String sep b) = split_char sep a ++ split_char sep b.
Proof.
  induction a as [|c a IH].
  - change (split_char sep (String sep b) = [EmptyString] ++ split_char sep b).
    cbn [split_char]. rewrite Ascii.eqb_refl. reflexivity.
  - change (split_char sep (String c (a ++ String sep b))
            = split_char sep (String c a) ++ split_char sep b).
    cbn [split_char]. rewrite IH.
    destruct (Ascii.eqb c sep); [reflexivity|].
    pose proof (split_char_nonempty sep a) as Hne.
    destruct (split_char sep a) as [|x xs]; [contradiction | reflexivity].
Qed.

Section FileSystem.
Implicit Types (fs : gmap (list string) fobj) (cur loc : list string) (names : list string).


Lemma entry_at_lookup fs loc o : loc <> [] -> entry_at fs loc = o <-> fs !! loc = o.
Proof. destruct loc; [congruence | reflexivity]. Qed.

Lemma is_dir_nonroot fs loc : is_dir fs loc = false -> loc <> [].
Proof. intros H ->. discriminate. Qed.


(** Where a walk arrives does not depend on what is there. *)
Lemma walk_locate fs names : forall cur loc,
  walk fs cur names = Some loc -> loc = fold_left path_step names cur.
Proof.
  induction names as [|n names IH]; intros cur loc; cbn [walk fold_left].
  - congruence.
  - destruct (is_dir fs cur); [apply IH | discriminate].
Qed.

Lemma walk_mono fs fs' names :
  (forall loc, is_dir fs loc = true -> is_dir fs' loc = true) ->
  forall cur loc, walk fs cur names = Some loc -> walk fs' cur names = Some loc.
Proof.
  intros Hdir. induction names as [|n names IH]; intros cur loc; cbn [walk]; [auto|].
  destruct (is_dir fs cur) eqn:Hc; [|discriminate].
  rewrite (Hdir _ Hc). apply IH.
Qed.





Lemma grown_refl fs : grown fs fs.
Proof. intros loc. left. reflexivity. Qed.

Lemma grown_trans fs1 fs2 fs3 : grown fs1 fs2 -> grown fs2 fs3 -> grown fs1 fs3.
Proof.
  intros H12 H23 loc. destruct (H12 loc) as [E12|[N1 D2]], (H23 loc) as [E23|[N2 D3]].
  - left. congruence.
  - right. split; congruence.
  - right. split; congruence.
  - congruence.
Qed.

Lemma mkdirs_grown names : forall fs cur b fs',
  mkdirs fs cur names = (b, fs') -> grown fs fs'.
Proof.
  induction names as [|n names IH]; intros fs cur b fs'; cbn [mkdirs].
  - intros [= _ <-]. apply grown_refl.
  - destruct (entry_at fs (path_step cur n)) as [[len|]|] eqn:Hentry.
    + intros [= _ <-]. apply grown_refl.
    + apply IH.
    + intros Hrun. apply IH in Hrun. refine (grown_trans _ _ _ _ Hrun).
      assert (Hne : path_step cur n <> []) by (intros E; rewrite E in Hentry; discriminate).
      apply (entry_at_lookup _ _ _ Hne) in Hentry.
      intros loc. destruct (decide (loc = path_step cur n)) as [->|Hloc].
      * right. split; [exact Hentry | apply lookup_insert_eq].
      * left. apply lookup_insert_ne. congruence.
Qed.

Lemma makedirs_grown fs cwd d b fs' : makedirs fs cwd d = (b, fs') -> grown fs fs'.
Proof.
  unfold makedirs. destruct (nonempty d && is_dir fs (path_start cwd d)).
  - apply mkdirs_grown.
  - intros [= _ <-]. apply grown_refl.
Qed.




(** A file written where no directory is leaves every walk as it was. *)
Lemma write_walk fs loc n names : is_dir fs loc = false ->
  forall cur l, walk fs cur names = Some l -> walk (<[loc := File n]> fs) cur names = Some l.
Proof.
  intros Hloc. apply walk_mono. intros l Hl.
  destruct l as [|x l]; [reflexivity|].
  unfold is_dir in *. cbn [entry_at] in *.
  rewrite lookup_insert_ne; [exact Hl|].
  intros E. subst loc. cbn [entry_at] in Hloc. congruence.
Qed.

Lemma write_file_spec fs cwd p n fs' :
  write_file fs cwd p n = Some fs' ->
  exists loc, nonempty p = true /\
    walk fs (path_start cwd p) (split_char slash p) = Some loc /\
    is_dir fs loc = false /\ fs' = <[loc := File n]> fs.
Proof.
  unfold write_file. destruct (nonempty p); [|discriminate].
  destruct (walk fs (path_start cwd p) (split_char slash p)) as [loc|]; [|discriminate].
  destruct (proper_name _); [|discriminate].
  destruct (is_dir fs loc) eqn:Hd; [discriminate|].
  intros [= <-]. eauto.
Qed.

Lemma stat_spec fs cwd p loc o :
  stat fs cwd p = Some (loc, o) <->
  nonempty p = true /\ walk fs (path_start cwd p) (split_char slash p) = Some loc /\
  entry_at fs loc = Some o.
Proof.
  unfold stat. destruct (nonempty p); [|split; [discriminate | intros [? _]; discriminate]].
  destruct (walk fs (path_start cwd p) (split_char slash p)) as [l|];
    [|split; [discriminate | intros (_ & ? & _); discriminate]].
  destruct (entry_at fs l) as [o'|] eqn:Hentry.
  - split; [intros [= <- <-]; auto | intros (_ & [= <-] & E); congruence].
  - split; [discriminate | intros (_ & [= <-] & E); congruence].
Qed.

Lemma write_stat_same fs cwd p n loc :
  nonempty p = true -> walk fs (path_start cwd p) (split_char slash p) = Some loc ->
  is_dir fs loc = false ->
  stat (<[loc := File n]> fs) cwd p = Some (loc, File n).
Proof.
  intros Hp Hwalk Hloc. apply stat_spec. split; [exact Hp|].
  split; [exact (write_walk _ _ _ _ Hloc _ _ Hwalk)|].
  apply (entry_at_lookup _ _ _ (is_dir_nonroot _ _ Hloc)). apply lookup_insert_eq.
Qed.

End FileSystem.

(** *** The directory of a path *)














Lemma stat_locate fs cwd p loc o : stat fs cwd p = Some (loc, o) -> loc = locate cwd p.
Proof. intros (_ & Hwalk & _)%stat_spec. exact (walk_locate _ _ _ _ Hwalk). Qed.

(** ** Downloading a prefix twice, in the simulated world *)

Lemma sim_set_files_same (w : Sim) : sim_set_files w (sim_files w) = w.
Proof. destruct w. reflexivity. Qed.


Lemma sim_ensure_parent p (w : Sim) :
  exists r fsA,
    ensure_parent p w = (r, sim_set_files w fsA) /\ grown (sim_files w) fsA /\
    (r = Ok tt \/ r = Raise OSError).
Proof.
  unfold ensure_parent. cbn [os_path_dirname os_makedirs Sim_Env].
  destruct (nonempty (posix_dirname p)).
  - destruct (makedirs (sim_files w) (sim_cwd w) (posix_dirname p)) as [made fsA] eqn:Hmk.
    exists (if made then Ok tt else Raise OSError), fsA.
    split; [reflexivity|]. split; [exact (makedirs_grown _ _ _ _ _ Hmk)|].
    destruct made; auto.
  - exists (Ok tt), (sim_files w). rewrite sim_set_files_same.
    split; [reflexivity|]. split; [apply grown_refl | auto].
Qed.

Lemma sim_size_matches p s (w : Sim) :
  exists skip : bool,
    size_matches p (Some s) w = (Ok skip, w) /\
    (skip = true -> exists loc o, sim_stat p w = Some (loc, o) /\ (o = File s \/ o = Dir)) /\
    (forall loc, sim_stat p w = Some (loc, File s) -> skip = true).
Proof.
  unfold size_matches. cbn [os_path_exists os_path_getsize Sim_Env].
  destruct (sim_stat p w) as [[loc [n|]]|].
  - exists (n =? s). split; [reflexivity|]. split.
    + intros ->%Z.eqb_eq. eauto.
    + intros loc' [= _ ->]. apply Z.eqb_refl.
  - eexists. split; [reflexivity|]. split; [eauto | discriminate].
  - exists false. split; [reflexivity|]. split; discriminate.
Qed.

Lemma sim_http_get_stream b k p (w w' : Sim) :
  http_get_stream b k p w = (Ok tt, w') -> nonempty p = true ->
  exists n fsB loc,
    sim_objects w !! object_url b k = Some n /\ grown (sim_files w) fsB /\
    stat (<[loc := File n]> fsB) (sim_cwd w) p = Some (loc, File n) /\
    walk fsB (path_start (sim_cwd w) p) (split_char slash p) = Some loc /\
    is_dir fsB loc = false /\
    w' = sim_set_files (sim_log (object_url b k) w) (<[loc := File n]> fsB).
Proof.
  cbn [http_get_stream Sim_Env]. intros Hrun Hne. rewrite Hne in Hrun. revert Hrun.
  destruct (sim_objects w !! object_url b k) as [n|]; [|discriminate].
  destruct (makedirs (sim_files w) (sim_cwd w) (posix_dirname p)) as [made fsB] eqn:Hmk.
  destruct made; [|discriminate].
  destruct (write_file fsB (sim_cwd w) p n) as [fs2|] eqn:Hwrite; [|discriminate].
  intros [= <-]. destruct (write_file_spec _ _ _ _ _ Hwrite) as (loc & Hp & Hwalk & Hloc & ->).
  exists n, fsB, loc. split; [reflexivity|].
  split; [exact (makedirs_grown _ _ _ _ _ Hmk)|].
  split; [exact (write_stat_same _ _ _ _ _ Hp Hwalk Hloc)|]. auto.
Qed.

(** A GET to an empty path writes nothing. *)
Lemma sim_http_get_stream_empty b k p (w w' : Sim) :
  http_get_stream b k p w = (Ok tt, w') -> nonempty p = false ->
  w' = sim_log (object_url b k) w /\ is_Some (sim_objects w !! object_url b k).
Proof.
  cbn [http_get_stream Sim_Env]. intros Hrun Hne. rewrite Hne in Hrun. revert Hrun.
  destruct (sim_objects w !! object_url b k) as [n|]; [|discriminate].
  intros [= <-]. eauto.
Qed.

(** A GET that goes through to a file had a directory to make and a name
    to write. *)
Lemma sim_http_get_stream_path b k p (w w' : Sim) :
  http_get_stream b k p w = (Ok tt, w') -> nonempty p = true ->
  nonempty (posix_dirname p) = true /\
  proper_name (List.last (split_char slash p) ""%string) = true.
Proof.
  cbn [http_get_stream Sim_Env]. intros Hrun Hne. rewrite Hne in Hrun. revert Hrun.
  destruct (sim_objects w !! object_url b k) as [n|]; [|discriminate].
  unfold makedirs. destruct (nonempty (posix_dirname p)); [|discriminate].
  destruct (is_dir (sim_files w) (path_start (sim_cwd w) (posix_dirname p))); [|discriminate].
  cbn [andb].
  destruct (mkdirs _ _ _) as [made fsB]. destruct made; [|discriminate].
  unfold write_file. rewrite Hne.
  destruct (walk fsB _ _); [|discriminate].
  destruct (proper_name _); [|discriminate].
  intros _. split; reflexivity.
Qed.


Section Logged.
Context {W : Type} `{Env W} {A : Type}.
Variable body : A -> string * Z -> M W A.

Lemma with_log_step a l x w :
  with_log body (a, l) x w
  = (map_result (fun a' => (a', l ++ [x])) (fst (body a x w)), snd (body a x w)).
Proof. unfold with_log, bind. destruct (body a x w) as [[a'| |] w']; reflexivity. Qed.

Lemma for_each_with_log xs : forall a l w,
  for_each xs body a w
  = (map_result fst (fst (for_each xs (with_log body) (a, l) w)),
     snd (for_each xs (with_log body) (a, l) w)) /\
  forall a' l' w', for_each xs (with_log body) (a, l) w = (Ok (a', l'), w') ->
                   l' = l ++ xs.
Proof.
  induction xs as [|x xs IH]; intros a l w.
  - split; [reflexivity|]. intros a' l' w' [= <- <- <-]. symmetry. apply app_nil_r.
  - cbn [for_each]. unfold bind. rewrite with_log_step.
    destruct (body a x w) as [[a1| |] w1]; cbn [map_result fst snd];
      try (split; [reflexivity | discriminate]).
    destruct (IH a1 (l ++ [x]) w1) as [IH1 IH2]. split; [exact IH1|].
    intros a' l' w' Hrun. rewrite (IH2 _ _ _ Hrun), <- app_assoc. reflexivity.
Qed.

(** Recording the entries changes neither the result nor the world. *)
Lemma iter_with_log base_url prefix fuel : forall token a l w,
  iter_all_objects fuel base_url prefix token body a w
  = (map_result fst (fst (iter_all_objects fuel base_url prefix token (with_log body) (a, l) w)),
     snd (iter_all_objects fuel base_url prefix token (with_log body) (a, l) w)).
Proof.
  induction fuel as [|fuel IH]; intros token a l w; [reflexivity|].
  cbn [iter_all_objects]. unfold bind at 1 3 5.
  destruct (list_objects_v2 base_url prefix None token 1000 w) as [[page| |] w1];
    [|reflexivity|reflexivity].
  unfold bind.
  destruct (for_each_with_log (keys page) a l w1) as [-> _].
  destruct (for_each (keys page) (with_log body) (a, l) w1) as [[[a1 l1]| |] w2];
    simpl; try reflexivity.
  destruct (is_truncated page); cbn [negb]; [apply IH | reflexivity].
Qed.
End Logged.

Lemma download_prefix_logged_fst {W} `{Env W} fuel base_url prefix dest (w : W) :
  download_prefix fuel base_url prefix dest w
  = (map_result fst (fst (download_prefix_logged fuel base_url prefix dest w)),
     snd (download_prefix_logged fuel base_url prefix dest w)).
Proof. apply iter_with_log. Qed.




Section TwoRuns.
Variables (b prefix d : string) (objs : gmap string Z) (cwd : list string)
          (es : list (string * Z)).

(** every listed size is the length of the object *)
Hypothesis accurate : forall k s, In (k, s) es -> objs !! object_url b k = Some s.
(** keys whose local paths name the same file have the same size *)
Hypothesis no_clash : forall k1 s1 k2 s2,
  In (k1, s1) es -> In (k2, s2) es ->
  locate cwd (posix_join d k1) = locate cwd (posix_join d k2) -> s1 = s2.





End TwoRuns.





(** A listed size that is not the length of the object is never matched by
    the local file either, so the object is fetched on each run. *)
Example download_prefix_stale_size :
  let w1 := snd (download_prefix 1 "u" "" "dest" stale_size_world) in
  fst (download_prefix 1 "u" "" "dest" stale_size_world) = Ok (1, 0, 1) /\
  fst (download_prefix 1 "u" "" "dest" (sim_again stale_size_world w1)) = Ok (1, 0, 1).
Proof. vm_compute. split; reflexivity. Qed.

(** Two keys of different sizes on one local path overwrite each other on
    every run. *)
Example download_prefix_path_clash :
  let w1 := snd (download_prefix 1 "u" "" "/d" clash_world) in
  posix_join "/d" "/d/x" = posix_join "/d" "x" /\
  fst (download_prefix 1 "u" "" "/d" clash_world) = Ok (2, 0, 2) /\
  fst (download_prefix 1 "u" "" "/d" (sim_again clash_world w1)) = Ok (2, 0, 2).
Proof. vm_compute. repeat split; reflexivity. Qed.

(** So do two keys whose local paths differ and name one file: [a//b] and
    [a/b]. *)
Example download_prefix_same_file :
  let w1 := snd (download_prefix 1 "u" "" "dest" same_file_world) in
  posix_join "dest" "a//b" <> posix_join "dest" "a/b" /\
  sim_locate same_file_world (posix_join "dest" "a//b")
  = sim_locate same_file_world (posix_join "dest" "a/b") /\
  fst (download_prefix 1 "u" "" "dest" same_file_world) = Ok (2, 0, 2) /\
  fst (download_prefix 1 "u" "" "dest" (sim_again same_file_world w1)) = Ok (2, 0, 2) /\
  sim_files w1 !! ["dest"%string; "a"%string; "b"%string] = Some (File 2).
Proof. split; [discriminate|]. vm_compute. repeat split; reflexivity. Qed.

(** A key that ends with a slash has a directory for local path: the
    object cannot be written there and the run fails, at each attempt. *)
Example download_prefix_directory_marker :
  let w1 := snd (download_prefix 1 "u" "" "dest" marker_world) in
  fst (download_prefix 1 "u" "" "dest" marker_world) = Raise OSError /\
  sim_isdir (posix_join "dest" "a/") w1 = true /\
  fst (download_prefix 1 "u" "" "dest" (sim_again marker_world w1)) = Raise OSError.
Proof. vm_compute. repeat split; reflexivity. Qed.

(** A key whose local path is a directory is skipped when the size of the
    directory happens to be the listed size; when that size changes, the
    next run tries to write the object over the directory and fails. *)
Example download_prefix_directory_in_place :
  let w1 := snd (download_prefix 1 "u" "" "dest" directory_size_world) in
  fst (download_prefix 1 "u" "" "dest" directory_size_world) = Ok (1, 1, 2) /\
  sim_isdir (posix_join "dest" "a") w1 = true /\
  fst (download_prefix 1 "u" "" "dest" (sim_again directory_size_world w1)) = Raise OSError.
Proof. vm_compute. repeat split; reflexivity. Qed.

(** ** [normalize_prefix] *)

Lemma lstrip_no_slash s : startswith "/" (lstrip_char slash s) = false.
Proof.
  induction s as [|c s IH]; [reflexivity|]. cbn [lstrip_char].
  destruct (Ascii.eqb c slash) eqn:Hc; [exact IH|].
  cbn [startswith]. rewrite Ascii.eqb_sym. fold slash. rewrite Hc. reflexivity.
Qed.

Lemma lstrip_fixed s : startswith "/" s = false -> lstrip_char slash s = s.
Proof.
  destruct s as [|c s]; [reflexivity|]. cbn [startswith lstrip_char].
  rewrite (Ascii.eqb_sym "/" c). fold slash.
  destruct (Ascii.eqb c slash); [discriminate | reflexivity].
Qed.

Lemma endswith_app_slash s : endswith_char slash (s ++ "/") = true.
Proof.
  induction s as [|c s IH]; [reflexivity|].
  simpl. destruct (s ++ "/")%string eqn:Hs; [destruct s; discriminate | exact IH].
Qed.

Lemma startswith_app_slash s :
  nonempty s = true -> startswith "/" (s ++ "/") = startswith "/" s.
Proof. destruct s; [discriminate | reflexivity]. Qed.

Lemma nonempty_app_slash s : nonempty (s ++ "/") = true.
Proof. destruct s; reflexivity. Qed.

Lemma normalize_prefix_cases p :
  normalize_prefix p = ""%string \/
  (nonempty (normalize_prefix p) = true /\
   startswith "/" (normalize_prefix p) = false /\
   endswith_char slash (normalize_prefix p) = true).
Proof.
  destruct p as [p|]; [|left; reflexivity].
  unfold normalize_prefix.
  destruct (nonempty p); cbn [negb]; [|left; reflexivity].
  pose proof (lstrip_no_slash p) as Hno.
  destruct (nonempty (lstrip_char slash p)) eqn:Hne; cbn [andb].
  - right. destruct (endswith_char slash (lstrip_char slash p)) eqn:Hend; cbn [negb].
    + auto.
    + rewrite nonempty_app_slash, endswith_app_slash, startswith_app_slash by exact Hne.
      auto.
  - left. destruct (lstrip_char slash p); [reflexivity | discriminate].
Qed.

(** C10: [normalize_prefix] returns the empty string or a string that
    does not start with a slash and ends with one, and applied to its own
    result it returns that result. *)
Theorem normalize_prefix_normal_form (p : option string) :
  (normalize_prefix p = ""%string \/
   (startswith "/" (normalize_prefix p) = false /\
    endswith_char slash (normalize_prefix p) = true)) /\
  normalize_prefix (Some (normalize_prefix p)) = normalize_prefix p.
Proof.
  destruct (normalize_prefix_cases p) as [Hr|(Hne & Hno & Hend)].
  - rewrite Hr. split; [left|]; reflexivity.
  - split; [right; auto|].
    generalize dependent (normalize_prefix p). intros r Hne Hno Hend.
    unfold normalize_prefix. rewrite Hne. cbn [negb].
    rewrite (lstrip_fixed _ Hno), Hne, Hend. reflexivity.
Qed.

(** ** [human_bytes] and the sizes the renderer prints *)

Lemma round_half_even_ge num den : num / den <= round_half_even num den.
Proof.
  unfold round_half_even.
  destruct (2 * (num mod den) <? den); [lia|].
  destruct (den <? 2 * (num mod den)); [lia|].
  destruct (Z.even (num / den)); lia.
Qed.

(** Integers below 2^53 are doubles. *)
Lemma float_of_int_exact n : 0 <= n < 2 ^ 53 -> float_of_int n = Some n.
Proof.
  intros [Hlo Hhi]. unfold float_of_int.
  rewrite (Z.abs_eq n) by exact Hlo.
  assert (Hdrop : Z.max 0 (Z.log2 n + 1 - 53) = 0).
  { destruct (Z.eq_dec n 0) as [->|Hn]; [reflexivity|].
    assert (Z.log2 n < 53) by (apply Z.log2_lt_pow2; lia). lia. }
  rewrite Hdrop. change (2 ^ 0) with 1.
  assert (Hr : round_half_even n 1 = n).
  { unfold round_half_even. rewrite Z.div_1_r, Z.mod_1_r. reflexivity. }
  rewrite Hr, Z.mul_1_r.
  assert (Hfit : (n <? 2 ^ 1024) = true).
  { apply Z.ltb_lt. eapply Z.lt_trans; [exact Hhi|]. reflexivity. }
  rewrite Hfit. f_equal. destruct n; try reflexivity. lia.
Qed.

(** Rounding an integer of 2^53 or more to a double stays at 2^53 or more. *)
Lemma float_of_int_large n v : 2 ^ 53 <= n -> float_of_int n = Some v -> 2 ^ 53 <= v.
Proof.
  intros Hn. unfold float_of_int.
  assert (Hpos : 0 < n) by (eapply Z.lt_le_trans; [|exact Hn]; reflexivity).
  rewrite (Z.abs_eq n) by lia.
  assert (Hlog : 53 <= Z.log2 n) by (apply Z.log2_le_pow2; [lia | exact Hn]).
  rewrite Z.max_r by lia.
  set (drop := Z.log2 n + 1 - 53).
  destruct (round_half_even n (2 ^ drop) * 2 ^ drop <? 2 ^ 1024); [|discriminate].
  intros [= <-]. rewrite (Z.sgn_pos n Hpos), Z.mul_1_l.
  assert (Hd : 0 < 2 ^ drop) by (apply Z.pow_pos_nonneg; lia).
  assert (Hq : 2 ^ 52 <= n / 2 ^ drop).
  { apply Z.div_le_lower_bound; [exact Hd|].
    rewrite <- Z.pow_add_r by lia.
    replace (drop + 52) with (Z.log2 n) by (unfold drop; lia).
    apply Z.log2_spec. exact Hpos. }
  pose proof (round_half_even_ge n (2 ^ drop)) as Hr.
  assert (H2 : 2 <= 2 ^ drop).
  { change 2 with (2 ^ 1) at 1. apply Z.pow_le_mono_r; unfold drop; lia. }
  change (2 ^ 53) with (2 ^ 52 * 2).
  apply Z.mul_le_mono_nonneg; lia.
Qed.

Lemma scale_steps v :
  scale 4 (mkDyadic v 0) 0
  = if 1024 <=? v then
      if 1048576 <=? v then
        if 1073741824 <=? v then
          if 1099511627776 <=? v then (mkDyadic v 40, 4%nat) else (mkDyadic v 30, 3%nat)
        else (mkDyadic v 20, 2%nat)
      else (mkDyadic v 10, 1%nat)
    else (mkDyadic v 0, 0%nat).
Proof. reflexivity. Qed.

(** The loop of [human_bytes] stops at the largest unit that the value
    reaches, and at TB at the latest. *)
Lemma scale_unit v :
  exists i : nat,
    (i <= 4)%nat /\
    scale 4 (mkDyadic v 0) 0 = (mkDyadic v (10 * Z.of_nat i), i) /\
    (forall j : nat, (j <= 4)%nat -> 1024 ^ Z.of_nat j <= v -> (j <= i)%nat) /\
    (1 <= v -> 1024 ^ Z.of_nat i <= v).
Proof.
  rewrite scale_steps.
  destruct (Z.leb_spec 1024 v) as [H1|H1];
    [|exists 0%nat; split; [lia|]; split; [reflexivity|]; split;
      [intros [|[|[|[|[|j]]]]] Hj Hv; simpl in Hv; lia | simpl; lia]].
  destruct (Z.leb_spec 1048576 v) as [H2|H2];
    [|exists 1%nat; split; [lia|]; split; [reflexivity|]; split;
      [intros [|[|[|[|[|j]]]]] Hj Hv; simpl in Hv; lia | simpl; lia]].
  destruct (Z.leb_spec 1073741824 v) as [H3|H3];
    [|exists 2%nat; split; [lia|]; split; [reflexivity|]; split;
      [intros [|[|[|[|[|j]]]]] Hj Hv; simpl in Hv; lia | simpl; lia]].
  destruct (Z.leb_spec 1099511627776 v) as [H4|H4];
    [|exists 3%nat; split; [lia|]; split; [reflexivity|]; split;
      [intros [|[|[|[|[|j]]]]] Hj Hv; simpl in Hv; lia | simpl; lia]].
  exists 4%nat. split; [lia|]. split; [reflexivity|]. split; [intros; lia | simpl; lia].
Qed.

Lemma two_digits_length m : 0 <= m < 100 -> String.length (two_digits m) = 2%nat.
Proof.
  intros Hm. rewrite <- (Z2Nat.id m) by lia.
  assert (Hk : (Z.to_nat m < 100)%nat) by lia.
  generalize dependent (Z.to_nat m). clear. intros k Hk.
  do 100 (destruct k as [|k]; [reflexivity|]). lia.
Qed.

Lemma append_assoc_str (a b c : string) : ((a ++ b) ++ c = a ++ (b ++ c))%string.
Proof.
  induction a as [|x a IH]; [reflexivity|].
  change (String x ((a ++ b) ++ c) = String x (a ++ (b ++ c)))%string.
  f_equal. exact IH.
Qed.

Lemma append_empty_l (s : string) : ("" ++ s = s)%string.
Proof. reflexivity. Qed.

Lemma human_bytes_value n v :
  0 <= n -> float_of_int n = Some v ->
  (n < 2 ^ 53 -> v = n) /\
  exists i : nat,
    (i <= 4)%nat /\
    (forall j : nat, (j <= 4)%nat -> 1024 ^ Z.of_nat j <= n -> (j <= i)%nat) /\
    (1 <= n -> 1024 ^ Z.of_nat i <= n) /\
    human_bytes n
    = Ok (str_of_int (round_half_even (v * 100) (1024 ^ Z.of_nat i) / 100) ++ "."
          ++ two_digits (round_half_even (v * 100) (1024 ^ Z.of_nat i) mod 100)
          ++ " " ++ nth i units "")%string /\
    String.length (two_digits (round_half_even (v * 100) (1024 ^ Z.of_nat i) mod 100))
    = 2%nat.
Proof.
  intros Hn Hf.
  assert (Hv : (n < 2 ^ 53 -> v = n) /\ (2 ^ 53 <= n -> 2 ^ 53 <= v)).
  { split.
    - intros Hsmall. rewrite float_of_int_exact in Hf by lia. congruence.
    - intros Hbig. exact (float_of_int_large n v Hbig Hf). }
  destruct Hv as [Hsmall Hbig]. split; [exact Hsmall|].
  destruct (scale_unit v) as (i & Hi & Hs & Hmax & Hmin).
  exists i. split; [exact Hi|].
  assert (H53 : 2 ^ 53 = 9007199254740992) by reflexivity.
  assert (H40 : 1024 ^ Z.of_nat 4 = 1099511627776) by reflexivity.
  split; [|split].
  - intros j Hj Hjn. destruct (Z.lt_ge_cases n (2 ^ 53)) as [Hlt|Hge].
    + apply Hmax; [exact Hj|]. rewrite (Hsmall Hlt). exact Hjn.
    + assert (4 <= i)%nat by (apply Hmax; [lia|]; specialize (Hbig Hge); lia). lia.
  - intros H1. destruct (Z.lt_ge_cases n (2 ^ 53)) as [Hlt|Hge].
    + rewrite <- (Hsmall Hlt). apply Hmin. rewrite (Hsmall Hlt). exact H1.
    + assert (1024 ^ Z.of_nat i <= 1024 ^ Z.of_nat 4)
        by (apply Z.pow_le_mono_r; lia).
      lia.
  - assert (Hv0 : 0 <= v).
    { destruct (Z.lt_ge_cases n (2 ^ 53)) as [Hlt|Hge];
        [rewrite (Hsmall Hlt); exact Hn | specialize (Hbig Hge); lia]. }
    assert (Hden : 2 ^ (10 * Z.of_nat i) = 1024 ^ Z.of_nat i)
      by (rewrite Z.pow_mul_r by lia; reflexivity).
    split.
    + unfold human_bytes. rewrite Hf.
      change (length units - 1)%nat with 4%nat. rewrite Hs.
      unfold format_2f, fixed2. cbn [fnum fshift].
      rewrite Hden, (Z.abs_eq v Hv0).
      destruct (Z.ltb_spec v 0) as [Hneg|_]; [lia|].
      rewrite append_empty_l, !append_assoc_str. reflexivity.
    + apply two_digits_length. apply Z.mod_pos_bound. lia.
Qed.

(** C8: [human_bytes] writes a byte count with two decimals in the largest
    of the units B, KB, MB, GB, TB (steps of 1024) in which it is at least
    1, TB being the last; so [human_bytes(1536)] is ["1.50 KB"]; and for a
    node without files the renderer prints ["0 B"] instead, in the title
    line as in the line of a directory. *)
Theorem human_bytes_scale_and_zero_files :
  (forall n v : Z,
      0 <= n -> float_of_int n = Some v ->
      (n < 2 ^ 53 -> v = n) /\
      exists i : nat,
        (i <= 4)%nat /\
        (forall j : nat, (j <= 4)%nat -> 1024 ^ Z.of_nat j <= n -> (j <= i)%nat) /\
        (1 <= n -> 1024 ^ Z.of_nat i <= n) /\
        human_bytes n
        = Ok (str_of_int (round_half_even (v * 100) (1024 ^ Z.of_nat i) / 100) ++ "."
              ++ two_digits (round_half_even (v * 100) (1024 ^ Z.of_nat i) mod 100)
              ++ " " ++ nth i units "")%string /\
        String.length (two_digits (round_half_even (v * 100) (1024 ^ Z.of_nat i) mod 100))
        = 2%nat) /\
  (forall n : Z, 0 <= n < 2 ^ 53 -> float_of_int n = Some n) /\
  human_bytes 1536 = Ok "1.50 KB"%string /\
  (forall tn : TreeNode,
      file_count tn = 0 ->
      size_str tn = Ok "0 B"%string /\
      (forall base_label,
          title_line tn base_label = Ok (base_label ++ "/  [0 files, 0 B]")%string) /\
      (forall ascii_mode prefix nm is_last,
          exists branch,
            _emit_line ascii_mode prefix nm tn is_last
            = Ok (prefix ++ branch ++ nm ++ "/  [0 files, 0 B]")%string)).
Proof.
  split; [exact human_bytes_value|]. split; [exact float_of_int_exact|].
  split; [reflexivity|].
  intros tn Hfc.
  assert (Hs : size_str tn = Ok "0 B"%string) by (unfold size_str; rewrite Hfc; reflexivity).
  split; [exact Hs|]. split.
  - intros base_label. unfold title_line. rewrite Hs, Hfc. reflexivity.
  - intros ascii_mode prefix nm is_last. unfold _emit_line. rewrite Hs, Hfc.
    destruct ascii_mode, is_last; eexists; reflexivity.
Qed.

Lemma human_bytes_scale_and_zero_files_witness :
  (exists i : nat,
      (i <= 4)%nat /\
      (forall j : nat, (j <= 4)%nat -> 1024 ^ Z.of_nat j <= 1536 -> (j <= i)%nat) /\
      (1 <= 1536 -> 1024 ^ Z.of_nat i <= 1536) /\
      human_bytes 1536
      = Ok (str_of_int (round_half_even (1536 * 100) (1024 ^ Z.of_nat i) / 100) ++ "."
            ++ two_digits (round_half_even (1536 * 100) (1024 ^ Z.of_nat i) mod 100)
            ++ " " ++ nth i units "")%string /\
      String.length (two_digits (round_half_even (1536 * 100) (1024 ^ Z.of_nat i) mod 100))
      = 2%nat) /\
  size_str (TreeNode_init "") = Ok "0 B"%string /\
  title_line (TreeNode_init "") "ska:sdc3-simdata"
  = Ok "ska:sdc3-simdata/  [0 files, 0 B]"%string.
Proof.
  split.
  - refine (proj2 (proj1 human_bytes_scale_and_zero_files 1536 1536 _ _)).
    + lia.
    + reflexivity.
  - destruct (proj2 (proj2 (proj2 human_bytes_scale_and_zero_files))
                (TreeNode_init "") eq_refl) as (Hs & Ht & _).
    split; [exact Hs | exact (Ht "ska:sdc3-simdata"%string)].
Defined.

(* ================================================================= *)
(** * Further properties of the code *)

(** ** Which directories the tree holds, and how they are named *)

Section TreeShape.
Implicit Types (t : TreeNode) (q ds : list string) (size : Z).

Lemma is_prefix_refl_head d q l : is_prefix (d :: q) (d :: l) = is_prefix q l.
Proof. simpl. rewrite String.eqb_refl. reflexivity. Qed.

Lemma is_prefix_other_head x d q l : x <> d -> is_prefix (x :: q) (d :: l) = false.
Proof. intros Hne. simpl. apply String.eqb_neq in Hne. rewrite Hne. reflexivity. Qed.

Lemma node_at_init_is_Some nm q : is_Some (node_at q (TreeNode_init nm)) <-> q = [].
Proof.
  destruct q as [|x q]; simpl.
  - split; eauto.
  - rewrite lookup_empty. split; [intros [? ?]; discriminate | discriminate].
Qed.

(** [create_path] adds exactly the directories of the path. *)
Lemma create_path_nodes ds : forall t q,
  is_Some (node_at q (create_path ds t))
  <-> is_Some (node_at q t) \/ is_prefix q ds = true.
Proof.
  induction ds as [|d ds IH]; intros t q.
  - simpl. split; [auto|]. intros [H|H]; [exact H|].
    apply is_prefix_nil_r in H. subst q. simpl. eauto.
  - destruct q as [|x q]; [simpl; split; eauto|].
    simpl create_path. unfold _get_or_create_child.
    destruct (String.eqb_spec x d) as [->|Hne].
    + rewrite is_prefix_refl_head.
      destruct (children t !! d) as [c|] eqn:Hc.
      * rewrite node_at_set_child_eq, (node_at_cons_eq _ _ _ _ Hc). apply IH.
      * rewrite node_at_set_child_eq, (node_at_cons_none _ _ _ Hc), IH,
          node_at_init_is_Some.
        split.
        -- intros [->|H]; right; [reflexivity | exact H].
        -- intros [[? ?]|H]; [discriminate | right; exact H].
    + rewrite (is_prefix_other_head _ _ _ _ Hne).
      destruct (children t !! d) as [c|] eqn:Hc.
      * rewrite node_at_set_child_ne by congruence. split; [auto | intros [H|H]; [exact H | discriminate]].
      * rewrite !node_at_set_child_ne by congruence.
        split; [auto | intros [H|H]; [exact H | discriminate]].
Qed.

Lemma node_at_add_file q size t :
  is_Some (node_at q (add_file size t)) <-> is_Some (node_at q t).
Proof. destruct q; simpl; [split; eauto | reflexivity]. Qed.

(** The walk that adds the entry creates and removes nothing. *)
Lemma add_along_nodes ds size : forall t t' q,
  add_along ds size t = Some t' ->
  (is_Some (node_at q t') <-> is_Some (node_at q t)).
Proof.
  induction ds as [|d ds IH]; intros t t' q Hrun.
  - injection Hrun as <-. reflexivity.
  - simpl in Hrun. destruct (children t !! d) as [c|] eqn:Hc; [|discriminate].
    destruct (add_along ds size (add_file size c)) as [c'|] eqn:Hc'; [|discriminate].
    injection Hrun as <-. destruct q as [|x q]; [simpl; split; eauto|].
    destruct (String.eqb_spec x d) as [->|Hne].
    + rewrite node_at_set_child_eq, (node_at_cons_eq _ _ _ _ Hc), (IH _ _ _ Hc').
      apply node_at_add_file.
    + rewrite node_at_set_child_ne by congruence. reflexivity.
Qed.

Lemma ingest_nodes prefix t t' key size q :
  ingest prefix t (key, size) = Some t' ->
  (is_Some (node_at q t')
   <-> is_Some (node_at q t) \/ under prefix q (key, size) = true).
Proof.
  unfold ingest, under. simpl fst. rewrite create_path_short.
  fold (key_dirs prefix key).
  destruct (add_along (key_dirs prefix key) size (create_path (key_dirs prefix key) t))
    as [t2|] eqn:Hwalk; [|discriminate].
  intros [= <-].
  rewrite node_at_add_file, (add_along_nodes _ _ _ _ q Hwalk). apply create_path_nodes.
Qed.

Lemma build_tree_loop_nodes prefix es : forall t t' q,
  build_tree_loop prefix t es = Some t' ->
  (is_Some (node_at q t')
   <-> is_Some (node_at q t) \/ any_under prefix q es = true).
Proof.
  induction es as [|[key size] es IH]; intros t t' q Hrun.
  - injection Hrun as <-. simpl. split; [auto | intros [H|H]; [exact H | discriminate]].
  - cbn [build_tree_loop] in Hrun.
    destruct (ingest prefix t (key, size)) as [t1|] eqn:Hin; [|discriminate].
    rewrite (IH _ _ _ Hrun), (ingest_nodes _ _ _ _ _ q Hin).
    unfold any_under. cbn [existsb]. rewrite orb_true_iff. tauto.
Qed.

Lemma node_at_root_init prefix q :
  is_Some (node_at q (build_tree_root prefix)) <-> q = [].
Proof. unfold build_tree_root. destruct (nonempty prefix); apply node_at_init_is_Some. Qed.

(** X1: the tree of [build_tree] holds a node for a directory path exactly
    when the path is empty (the root) or some ingested entry lies below
    that directory: a directory is created for every directory part of
    every key, and for nothing else. *)
Theorem build_tree_directories (prefix : string) (es : list (string * Z))
    (root : TreeNode) (q : list string) :
  build_tree_of prefix es = Some root ->
  (is_Some (node_at q root) <-> q = [] \/ any_under prefix q es = true).
Proof.
  intros Hroot. unfold build_tree_of in Hroot.
  rewrite (build_tree_loop_nodes _ _ _ _ q Hroot), node_at_root_init. reflexivity.
Qed.
End TreeShape.

Lemma build_tree_directories_witness :
  let es := [("a/b.txt"%string, 10); ("a/c/d.txt"%string, 20); ("root.txt"%string, 5)] in
  exists root,
    build_tree_of "" es = Some root /\
    (is_Some (node_at ["a"; "c"]%string root)
     <-> ["a"; "c"]%string = [] \/ any_under "" ["a"; "c"]%string es = true).
Proof.
  intros es.
  destruct (build_tree_of "" es) as [root|] eqn:Hroot; [|vm_compute in Hroot; discriminate].
  exists root. split; [reflexivity|].
  exact (build_tree_directories "" es root ["a"; "c"]%string Hroot).
Defined.

(** The aggregates of the node at [q], from the invariant of the loop. *)
Lemma node_aggregates prefix es root q node :
  build_tree_of prefix es = Some root ->
  node_at q root = Some node ->
  file_count node = Z.of_nat (length (files_under prefix q es)) /\
  total_size node = sum_positive (files_under prefix q es).
Proof.
  intros Hroot Hnode.
  destruct (build_tree_loop_agg prefix es (build_tree_root prefix)) as (root0 & Hroot0 & Hagg).
  unfold build_tree_of in Hroot. rewrite Hroot0 in Hroot. injection Hroot as ->.
  destruct (Hagg q) as [H1 H2].
  unfold count_at, size_at in H1, H2. rewrite Hnode in H1, H2.
  destruct q as [|x q].
  - unfold build_tree_root in H1, H2. destruct (nonempty prefix); simpl in H1, H2; split; lia.
  - assert (Hz : node_at (x :: q) (build_tree_root prefix) = None)
      by (unfold build_tree_root; destruct (nonempty prefix); reflexivity).
    rewrite Hz in H1, H2. split; lia.
Qed.

Lemma sum_positive_nonneg es : 0 <= sum_positive es.
Proof.
  induction es as [|e es IH]; [unfold sum_positive; simpl; lia|].
  rewrite sum_positive_cons. unfold weight. destruct (Z.ltb_spec 0 (snd e)); lia.
Qed.

Lemma any_under_files prefix q es :
  any_under prefix q es = true -> (0 < length (files_under prefix q es))%nat.
Proof.
  unfold any_under, files_under. induction es as [|e es IH]; simpl; [discriminate|].
  destruct (under prefix q e); simpl; [lia | exact IH].
Qed.

(** X2: in the tree of [build_tree] no size is negative, and every
    directory node other than the root has at least one file below it. *)
Theorem build_tree_no_empty_directory (prefix : string) (es : list (string * Z))
    (root : TreeNode) (q : list string) (node : TreeNode) :
  build_tree_of prefix es = Some root ->
  node_at q root = Some node ->
  0 <= total_size node /\ 0 <= file_count node /\ (q <> [] -> 1 <= file_count node).
Proof.
  intros Hroot Hnode.
  destruct (node_aggregates _ _ _ _ _ Hroot Hnode) as [-> ->].
  split; [apply sum_positive_nonneg|]. split; [lia|].
  intros Hq.
  assert (Hex : is_Some (node_at q root)) by (rewrite Hnode; eauto).
  unfold build_tree_of in Hroot.
  apply (build_tree_loop_nodes _ _ _ _ q Hroot) in Hex.
  rewrite node_at_root_init in Hex. destruct Hex as [Hex|Hex]; [contradiction|].
  apply any_under_files in Hex. lia.
Qed.

Lemma build_tree_no_empty_directory_witness :
  let es := [("a/b.txt"%string, 10); ("a/c/d.txt"%string, -1); ("root.txt"%string, 5)] in
  exists root node,
    build_tree_of "" es = Some root /\ node_at ["a"; "c"]%string root = Some node /\
    0 <= total_size node /\ 0 <= file_count node /\
    (["a"; "c"]%string <> [] -> 1 <= file_count node).
Proof.
  intros es.
  destruct (build_tree_of "" es) as [root|] eqn:Hroot; [|vm_compute in Hroot; discriminate].
  destruct (node_at ["a"; "c"]%string root) as [node|] eqn:Hnode.
  - exists root, node. split; [reflexivity|]. split; [exact Hnode|].
    exact (build_tree_no_empty_directory "" es root _ node Hroot Hnode).
  - vm_compute in Hroot. injection Hroot as <-. vm_compute in Hnode. discriminate.
Defined.

Lemma is_prefix_app_l q d l : is_prefix (q ++ [d]) l = true -> is_prefix q l = true.
Proof.
  revert l. induction q as [|x q IH]; intros l H; [reflexivity|].
  destruct l as [|y l]; [discriminate|]. simpl in *.
  destruct (String.eqb x y); [apply IH; exact H | discriminate].
Qed.

Lemma filter_narrower {X} (f g : X -> bool) (w : X -> Z) (l : list X) :
  (forall x, f x = true -> g x = true) -> (forall x, 0 <= w x) ->
  (length (List.filter f l) <= length (List.filter g l))%nat /\
  fold_right Z.add 0 (List.map w (List.filter f l))
  <= fold_right Z.add 0 (List.map w (List.filter g l)).
Proof.
  intros Hfg Hw. induction l as [|x l [IH1 IH2]]; [simpl; split; lia|].
  simpl. destruct (f x) eqn:Hf.
  - rewrite (Hfg _ Hf). simpl. split; lia.
  - destruct (g x); simpl; [specialize (Hw x)|]; split; lia.
Qed.

Lemma sum_positive_weight es :
  sum_positive es = fold_right Z.add 0 (List.map (fun e => weight (snd e)) es).
Proof.
  induction es as [|e es IH]; [reflexivity|].
  rewrite sum_positive_cons, IH. reflexivity.
Qed.

(** X3: a directory never shows more files or more bytes than its parent. *)
Theorem build_tree_child_within_parent (prefix : string) (es : list (string * Z))
    (root : TreeNode) (q : list string) (d : string) (parent child : TreeNode) :
  build_tree_of prefix es = Some root ->
  node_at q root = Some parent ->
  node_at (q ++ [d]) root = Some child ->
  file_count child <= file_count parent /\ total_size child <= total_size parent.
Proof.
  intros Hroot Hp Hc.
  destruct (node_aggregates _ _ _ _ _ Hroot Hp) as [-> ->].
  destruct (node_aggregates _ _ _ _ _ Hroot Hc) as [-> ->].
  rewrite !sum_positive_weight. unfold files_under.
  destruct (filter_narrower (under prefix (q ++ [d])) (under prefix q)
              (fun e => weight (snd e)) es) as [H1 H2].
  - intros e. unfold under. apply is_prefix_app_l.
  - intros e. unfold weight. destruct (Z.ltb_spec 0 (snd e)); lia.
  - split; [lia | exact H2].
Qed.

Lemma build_tree_child_within_parent_witness :
  let es := [("a/b.txt"%string, 10); ("a/c/d.txt"%string, 20); ("root.txt"%string, 5)] in
  exists root parent child,
    build_tree_of "" es = Some root /\
    node_at ["a"]%string root = Some parent /\
    node_at (["a"%string] ++ ["c"%string]) root = Some child /\
    file_count child <= file_count parent /\ total_size child <= total_size parent.
Proof.
  intros es.
  destruct (build_tree_of "" es) as [root|] eqn:Hroot; [|vm_compute in Hroot; discriminate].
  destruct (node_at ["a"]%string root) as [parent|] eqn:Hp;
    [|vm_compute in Hroot; injection Hroot as <-; vm_compute in Hp; discriminate].
  destruct (node_at (["a"%string] ++ ["c"%string]) root) as [child|] eqn:Hc;
    [|vm_compute in Hroot; injection Hroot as <-; vm_compute in Hc; discriminate].
  exists root, parent, child. split; [reflexivity|]. split; [exact Hp|]. split; [exact Hc|].
  exact (build_tree_child_within_parent "" es root _ _ parent child Hroot Hp Hc).
Defined.

(** ** Names of the nodes *)

Lemma well_named_init nm : well_named (TreeNode_init nm).
Proof.
  intros q d n Hn. destruct q as [|x q]; simpl in Hn; rewrite lookup_empty in Hn;
    discriminate.
Qed.

Lemma well_named_child t x c :
  well_named t -> children t !! x = Some c -> well_named c.
Proof.
  intros Ht Hc q d n Hn. apply (Ht (x :: q) d n). simpl. rewrite Hc. exact Hn.
Qed.

Lemma well_named_set_child t x c :
  well_named t -> well_named c -> name c = x -> well_named (set_child t x c).
Proof.
  intros Ht Hc Hname q d n Hn. destruct q as [|y q].
  - simpl in Hn. destruct (String.eqb_spec x d) as [->|Hne].
    + rewrite lookup_insert_eq in Hn. congruence.
    + rewrite lookup_insert_ne in Hn by exact Hne. apply (Ht [] d n). exact Hn.
  - simpl in Hn. destruct (String.eqb_spec x y) as [->|Hne].
    + rewrite lookup_insert_eq in Hn. apply (Hc q d n Hn).
    + rewrite lookup_insert_ne in Hn by exact Hne. apply (Ht (y :: q) d n). exact Hn.
Qed.

Lemma name_create_path ds t : name (create_path ds t) = name t.
Proof.
  destruct ds as [|d ds]; [reflexivity|]. simpl. unfold _get_or_create_child.
  destruct (children t !! d); reflexivity.
Qed.

Lemma create_path_well_named ds : forall t, well_named t -> well_named (create_path ds t).
Proof.
  induction ds as [|d ds IH]; intros t Ht; [exact Ht|].
  simpl. unfold _get_or_create_child.
  destruct (children t !! d) as [c|] eqn:Hc.
  - apply well_named_set_child; [exact Ht | apply IH, (well_named_child _ _ _ Ht Hc)|].
    rewrite name_create_path. apply (Ht [] d c). simpl. rewrite Hc. reflexivity.
  - apply well_named_set_child.
    + apply well_named_set_child; [exact Ht | apply well_named_init | reflexivity].
    + apply IH, well_named_init.
    + rewrite name_create_path. reflexivity.
Qed.

Lemma well_named_add_file size t : well_named t -> well_named (add_file size t).
Proof. intros Ht q d n Hn. apply (Ht q d n). destruct q; exact Hn. Qed.

Lemma add_along_well_named ds size : forall t t',
  well_named t -> add_along ds size t = Some t' ->
  well_named t' /\ name t' = name t.
Proof.
  induction ds as [|d ds IH]; intros t t' Ht Hrun.
  - injection Hrun as <-. auto.
  - simpl in Hrun. destruct (children t !! d) as [c|] eqn:Hc; [|discriminate].
    destruct (add_along ds size (add_file size c)) as [c'|] eqn:Hc'; [|discriminate].
    injection Hrun as <-.
    destruct (IH _ _ (well_named_add_file size c (well_named_child _ _ _ Ht Hc)) Hc')
      as [Hc1 Hc2].
    split; [|reflexivity].
    apply well_named_set_child; [exact Ht | exact Hc1|].
    rewrite Hc2. simpl. apply (Ht [] d c). simpl. rewrite Hc. reflexivity.
Qed.

Lemma ingest_well_named prefix t t' e :
  well_named t -> ingest prefix t e = Some t' -> well_named t' /\ name t' = name t.
Proof.
  destruct e as [key size]. intros Ht. unfold ingest. rewrite create_path_short.
  fold (key_dirs prefix key).
  destruct (add_along (key_dirs prefix key) size (create_path (key_dirs prefix key) t))
    as [t2|] eqn:Hwalk; [|discriminate].
  intros [= <-].
  destruct (add_along_well_named _ _ _ _ (create_path_well_named _ _ Ht) Hwalk) as [H1 H2].
  split; [apply well_named_add_file, H1|].
  simpl. rewrite H2. apply name_create_path.
Qed.

Lemma build_tree_loop_well_named prefix es : forall t t',
  well_named t -> build_tree_loop prefix t es = Some t' ->
  well_named t' /\ name t' = name t.
Proof.
  induction es as [|e es IH]; intros t t' Ht Hrun.
  - injection Hrun as <-. auto.
  - cbn [build_tree_loop] in Hrun.
    destruct (ingest prefix t e) as [t1|] eqn:Hin; [|discriminate].
    destruct (ingest_well_named _ _ _ _ Ht Hin) as [H1 H2].
    destruct (IH _ _ H1 Hrun) as [H3 H4]. split; [exact H3 | congruence].
Qed.

Lemma build_tree_root_name prefix : name (build_tree_root prefix) = rstrip_char slash prefix.
Proof. unfold build_tree_root. destruct prefix; reflexivity. Qed.

Lemma split_char_no_slash s : Forall (fun p => has_slash p = false) (split_char slash s).
Proof.
  induction s as [|c s IH]; [repeat constructor|].
  cbn [split_char]. destruct (Ascii.eqb c slash) eqn:Hc.
  - constructor; [reflexivity | exact IH].
  - destruct (split_char slash s) as [|x xs]; [repeat constructor; simpl; rewrite Hc; reflexivity|].
    inversion IH as [|? ? Hx Hxs]; subst. constructor; [|exact Hxs].
    simpl. rewrite Hc, Hx. reflexivity.
Qed.

(** The path segments of a key are not empty and hold no separator. *)
Lemma key_parts_good prefix key : Forall (fun p => good_segment p = true) (key_parts prefix key).
Proof.
  unfold key_parts. pose proof (split_char_no_slash (rel_key prefix key)) as H.
  induction H as [|p l Hp _ IH]; [constructor|].
  simpl. destruct (nonempty p) eqn:Hne; [|exact IH].
  constructor; [|exact IH]. unfold good_segment. rewrite Hne, Hp. reflexivity.
Qed.

Lemma Forall_removelast {X} (P : X -> Prop) (l : list X) : Forall P l -> Forall P (removelast l).
Proof.
  induction 1 as [|x l Hx Hl IH]; [constructor|].
  simpl. destruct l; [constructor | constructor; assumption].
Qed.

Lemma is_prefix_last_in q d l :
  is_prefix (q ++ [d]) l = true -> In d l.
Proof.
  revert l. induction q as [|x q IH]; intros [|y l] H; try discriminate; simpl in H.
  - destruct (String.eqb_spec d y); [left; congruence | discriminate].
  - destruct (String.eqb x y); [right; apply IH; exact H | discriminate].
Qed.

(** X4: in the tree of [build_tree] the root is named after the prefix
    without its trailing slashes, and every other node carries the name it
    is filed under in its parent, which is a path segment of a key: not
    empty and without slash. *)
Theorem build_tree_names (prefix : string) (es : list (string * Z)) (root : TreeNode) :
  build_tree_of prefix es = Some root ->
  name root = rstrip_char slash prefix /\
  forall q d node,
    node_at (q ++ [d]) root = Some node ->
    name node = d /\ good_segment d = true.
Proof.
  intros Hroot. unfold build_tree_of in Hroot.
  assert (Hstart : well_named (build_tree_root prefix))
    by (unfold build_tree_root; destruct (nonempty prefix); apply well_named_init).
  destruct (build_tree_loop_well_named _ _ _ _ Hstart Hroot) as [Hnamed Hname].
  split; [rewrite Hname; apply build_tree_root_name|].
  intros q d node Hnode. split; [exact (Hnamed q d node Hnode)|].
  assert (Hex : is_Some (node_at (q ++ [d]) root)) by (rewrite Hnode; eauto).
  apply (build_tree_loop_nodes _ _ _ _ _ Hroot) in Hex.
  rewrite node_at_root_init in Hex.
  destruct Hex as [Hex|Hex]; [destruct q; discriminate|].
  unfold any_under in Hex. apply existsb_exists in Hex. destruct Hex as (e & _ & He).
  unfold under, key_dirs in He. apply is_prefix_last_in in He.
  pose proof (Forall_removelast _ _ (key_parts_good prefix (fst e))) as Hgood.
  rewrite List.Forall_forall in Hgood. exact (Hgood d He).
Qed.

Lemma build_tree_names_witness :
  let es := [("SDC3/a//c/d.txt"%string, 20); ("SDC3/root.txt"%string, 5)] in
  exists root node,
    build_tree_of "SDC3/" es = Some root /\
    node_at (["a"%string] ++ ["c"%string]) root = Some node /\
    name root = "SDC3"%string /\ name node = "c"%string /\ good_segment "c" = true.
Proof.
  intros es.
  destruct (build_tree_of "SDC3/" es) as [root|] eqn:Hroot; [|vm_compute in Hroot; discriminate].
  destruct (node_at (["a"%string] ++ ["c"%string]) root) as [node|] eqn:Hnode;
    [|vm_compute in Hroot; injection Hroot as <-; vm_compute in Hnode; discriminate].
  exists root, node. split; [reflexivity|]. split; [exact Hnode|].
  destruct (build_tree_names "SDC3/" es root Hroot) as [Hname Hnodes].
  split; [exact Hname|]. exact (Hnodes _ _ _ Hnode).
Defined.

(** ** The whole tree does not depend on the order of the listing *)

Lemma filter_perm {X} (f : X -> bool) (l l' : list X) :
  Permutation l l' -> Permutation (List.filter f l) (List.filter f l').
Proof.
  induction 1 as [|x l l' _ IH|x y l|l1 l2 l3 _ IH1 _ IH2]; simpl.
  - constructor.
  - destruct (f x); [constructor|]; exact IH.
  - destruct (f x), (f y); try reflexivity. apply perm_swap.
  - etransitivity; eassumption.
Qed.

Lemma any_under_perm prefix q es es' :
  Permutation es es' -> any_under prefix q es = any_under prefix q es'.
Proof.
  unfold any_under. induction 1 as [|x l l' _ IH|x y l|l1 l2 l3 _ IH1 _ IH2]; simpl.
  - reflexivity.
  - rewrite IH. reflexivity.
  - destruct (under prefix q x), (under prefix q y); reflexivity.
  - congruence.
Qed.

Lemma last_segment (q : list string) : q = [] \/ exists q0 d, q = q0 ++ [d].
Proof.
  destruct q; [left; reflexivity | right].
  destruct (@exists_last _ (s :: q)) as (q0 & d & Hq); [discriminate|]. eauto.
Qed.

(** X5: listing the same entries in another order gives a tree with the
    same directories, each with the same name, file count and size. *)
Theorem build_tree_order_independent (prefix : string) (es es' : list (string * Z))
    (root root' : TreeNode) (q : list string) :
  Permutation es es' ->
  build_tree_of prefix es = Some root ->
  build_tree_of prefix es' = Some root' ->
  node_view <$> node_at q root = node_view <$> node_at q root'.
Proof.
  intros Hperm Hroot Hroot'.
  assert (Hsame : is_Some (node_at q root) <-> is_Some (node_at q root')).
  { unfold build_tree_of in Hroot, Hroot'.
    rewrite (build_tree_loop_nodes _ _ _ _ q Hroot), (build_tree_loop_nodes _ _ _ _ q Hroot'),
      (any_under_perm _ _ _ _ Hperm). reflexivity. }
  destruct (node_at q root) as [n|] eqn:Hn, (node_at q root') as [n'|] eqn:Hn'.
  - simpl. f_equal. unfold node_view.
    destruct (node_aggregates _ _ _ _ _ Hroot Hn) as [-> ->].
    destruct (node_aggregates _ _ _ _ _ Hroot' Hn') as [-> ->].
    assert (Hfiles : Permutation (files_under prefix q es) (files_under prefix q es'))
      by (apply filter_perm; exact Hperm).
    rewrite (Permutation_length Hfiles), (sum_positive_perm _ _ Hfiles).
    assert (Hnm : name n = name n'); [|rewrite Hnm; reflexivity].
    assert (Hstart : well_named (build_tree_root prefix))
      by (unfold build_tree_root; destruct (nonempty prefix); apply well_named_init).
    destruct (build_tree_loop_well_named _ _ _ _ Hstart Hroot) as [Hw Hname].
    destruct (build_tree_loop_well_named _ _ _ _ Hstart Hroot') as [Hw' Hname'].
    destruct (last_segment q) as [->|(q0 & d & ->)].
    + injection Hn as <-. injection Hn' as <-. congruence.
    + rewrite (Hw _ _ _ Hn), (Hw' _ _ _ Hn'). reflexivity.
  - exfalso. destruct (proj1 Hsame) as [? ?]; [eauto | discriminate].
  - exfalso. destruct (proj2 Hsame) as [? ?]; [eauto | discriminate].
  - reflexivity.
Qed.

Lemma build_tree_order_independent_witness :
  let es := [("a/b.txt"%string, 10); ("a/c/d.txt"%string, 20); ("root.txt"%string, 5)] in
  let es' := [("a/c/d.txt"%string, 20); ("a/b.txt"%string, 10); ("root.txt"%string, 5)] in
  exists root root',
    build_tree_of "" es = Some root /\ build_tree_of "" es' = Some root' /\
    node_view <$> node_at ["a"%string] root = node_view <$> node_at ["a"%string] root'.
Proof.
  intros es es'.
  destruct (build_tree_of "" es) as [root|] eqn:Hroot; [|vm_compute in Hroot; discriminate].
  destruct (build_tree_of "" es') as [root'|] eqn:Hroot'; [|vm_compute in Hroot'; discriminate].
  exists root, root'. split; [reflexivity|]. split; [reflexivity|].
  exact (build_tree_order_independent "" es es' root root' ["a"%string]
           (perm_swap _ _ _) Hroot Hroot').
Defined.

(** ** Keys below a prefix *)

Lemma startswith_app p s : startswith p (p ++ s) = true.
Proof.
  induction p as [|c p IH]; [reflexivity|].
  change (String c p ++ s)%string with (String c (p ++ s)).
  cbn [startswith]. rewrite Ascii.eqb_refl. exact IH.
Qed.

Lemma str_drop_app p s : str_drop (String.length p) (p ++ s) = s.
Proof. induction p as [|c p IH]; [reflexivity | exact IH]. Qed.

Lemma rel_key_below prefix k : rel_key prefix (prefix ++ k) = rel_key "" k.
Proof.
  unfold rel_key. rewrite startswith_app, str_drop_app.
  destruct prefix; reflexivity.
Qed.

Lemma ingest_below prefix t k size :
  ingest prefix t ((prefix ++ k)%string, size) = ingest "" t (k, size).
Proof. unfold ingest, key_parts. rewrite rel_key_below. reflexivity. Qed.

Lemma rename_create_path nm ds t :
  create_path ds (rename nm t) = rename nm (create_path ds t).
Proof.
  destruct ds as [|d ds]; [reflexivity|]. simpl. unfold _get_or_create_child.
  change (children (rename nm t)) with (children t).
  destruct (children t !! d); reflexivity.
Qed.

Lemma rename_add_along nm ds size t :
  add_along ds size (rename nm t) = rename nm <$> add_along ds size t.
Proof.
  destruct ds as [|d ds]; [reflexivity|]. simpl.
  destruct (children t !! d); [|reflexivity].
  destruct (add_along ds size (add_file size t0)); reflexivity.
Qed.

Lemma rename_ingest prefix nm t e :
  ingest prefix (rename nm t) e = rename nm <$> ingest prefix t e.
Proof.
  destruct e as [key size]. unfold ingest.
  rewrite !create_path_short. fold (key_dirs prefix key).
  rewrite rename_create_path, rename_add_along.
  destruct (add_along (key_dirs prefix key) size (create_path (key_dirs prefix key) t));
    reflexivity.
Qed.

Lemma rename_build_tree_loop prefix nm es : forall t,
  build_tree_loop prefix (rename nm t) es = rename nm <$> build_tree_loop prefix t es.
Proof.
  induction es as [|e es IH]; intros t; [reflexivity|].
  cbn [build_tree_loop]. rewrite rename_ingest.
  destruct (ingest prefix t e) as [t1|]; [apply IH | reflexivity].
Qed.

Lemma build_tree_loop_below prefix es : forall t,
  build_tree_loop prefix t (below_prefix prefix es) = build_tree_loop "" t es.
Proof.
  induction es as [|[k size] es IH]; intros t; [reflexivity|].
  cbn [below_prefix List.map build_tree_loop fst snd]. rewrite ingest_below.
  destruct (ingest "" t (k, size)) as [t1|]; [apply IH | reflexivity].
Qed.

(** X6: the tree built under a prefix from keys that all start with the
    prefix is the tree built without prefix from the rest of each key,
    with the root renamed to the prefix without its trailing slashes. *)
Theorem build_tree_relative_to_prefix (prefix : string) (es : list (string * Z)) :
  build_tree_of prefix (below_prefix prefix es)
  = rename (rstrip_char slash prefix) <$> build_tree_of "" es.
Proof.
  unfold build_tree_of. rewrite build_tree_loop_below, <- rename_build_tree_loop.
  f_equal. unfold build_tree_root. destruct prefix; reflexivity.
Qed.

(** ** Listing responses *)

Lemma append_eqb_l (a s t : string) : String.eqb (a ++ s) (a ++ t) = String.eqb s t.
Proof.
  induction a as [|c a IH]; [reflexivity|].
  change (String.eqb (String c (a ++ s)) (String c (a ++ t)) = String.eqb s t).
  cbn [String.eqb]. rewrite Ascii.eqb_refl. exact IH.
Qed.

Lemma before_char_app c (u rest : string) :
  contains_char c u = false -> before_char c (u ++ String c rest) = u.
Proof.
  induction u as [|a u IH]; intros Hu.
  - change (before_char c (String c rest) = ""%string). cbn [before_char].
    rewrite Ascii.eqb_refl. reflexivity.
  - cbn [contains_char] in Hu. apply orb_false_iff in Hu. destruct Hu as [Ha Hu].
    change (before_char c (String a (u ++ String c rest)) = String a u).
    cbn [before_char]. rewrite Ha, (IH Hu). reflexivity.
Qed.

Lemma tag_qualify ns e : tag (qualify ns e) = (ns ++ tag e)%string.
Proof. destruct e; reflexivity. Qed.

Lemma text_qualify ns e : text (qualify ns e) = text e.
Proof. destruct e; reflexivity. Qed.

Lemma elems_qualify ns e : elems (qualify ns e) = List.map (qualify ns) (elems e).
Proof. destruct e; reflexivity. Qed.

Lemma findall_qualify ns nm e :
  findall (ns ++ nm) (qualify ns e) = List.map (qualify ns) (findall nm e).
Proof.
  unfold findall. rewrite elems_qualify.
  induction (elems e) as [|c l IH]; [reflexivity|].
  cbn [List.map List.filter]. rewrite tag_qualify, append_eqb_l, IH.
  destruct (String.eqb (tag c) nm); reflexivity.
Qed.

Lemma text_of_qualify ns e nm : text_of ns (qualify ns e) nm = text_of "" e nm.
Proof.
  unfold text_of, find. rewrite findall_qualify.
  change ("" ++ nm)%string with nm.
  destruct (findall nm e) as [|x l]; [reflexivity|]. simpl. apply text_qualify.
Qed.

Section ListingFacts.
Context {W : Type} `{Env W}.

Lemma contents_keys_qualify ns cs :
  contents_keys ns (List.map (qualify ns) cs) = contents_keys "" cs.
Proof.
  induction cs as [|c cs IH]; [reflexivity|].
  cbn [List.map contents_keys]. rewrite !text_of_qualify, IH. reflexivity.
Qed.

Lemma prefixes_of_qualify ns cps :
  prefixes_of ns (List.map (qualify ns) cps) = prefixes_of "" cps.
Proof.
  induction cps as [|c cps IH]; [reflexivity|].
  cbn [List.map prefixes_of]. rewrite text_of_qualify, IH. reflexivity.
Qed.

(** X7: a response whose elements all lie in an XML namespace is read as
    the same response without namespace: same keys and sizes, same common
    prefixes, same truncation flag and token, same error. *)
Theorem page_of_xml_namespace (uri : string) (root : Element) :
  contains_char "}" uri = false ->
  startswith "{" (tag root) = false ->
  page_of_xml (qualify ("{" ++ uri ++ "}") root) = page_of_xml root.
Proof.
  intros Huri Hplain.
  assert (Hns : namespace_of (qualify ("{" ++ uri ++ "}") root)
                = ("{" ++ uri ++ "}")%string).
  { unfold namespace_of. rewrite tag_qualify.
    change (("{" ++ uri ++ "}") ++ tag root)%string
      with (String "{" ((uri ++ "}") ++ tag root)).
    cbn [startswith]. rewrite Ascii.eqb_refl. cbn [before_char].
    replace (Ascii.eqb "{" "}") with false by reflexivity.
    rewrite append_assoc_str.
    change ("}" ++ tag root)%string with (String "}" (tag root)).
    rewrite (before_char_app _ _ _ Huri). reflexivity. }
  assert (Hplain_ns : namespace_of root = ""%string)
    by (unfold namespace_of; rewrite Hplain; reflexivity).
  unfold page_of_xml. rewrite Hns, Hplain_ns.
  rewrite !findall_qualify, contents_keys_qualify, prefixes_of_qualify, !text_of_qualify.
  reflexivity.
Qed.

Lemma contents_keys_outcome ns cs :
  match contents_keys ns cs with
  | Ok ks =>
      existsb (bad_size ns) cs = false /\
      length ks = length (List.filter (has_key ns) cs)
  | Raise e => e = ValueError /\ existsb (bad_size ns) cs = true
  | OutOfFuel => False
  end.
Proof.
  induction cs as [|c cs IH]; [split; reflexivity|].
  cbn [contents_keys existsb List.filter].
  destruct (text_of ns c "Key") as [k|] eqn:Hk.
  - assert (Hhas : has_key ns c = true) by (unfold has_key; rewrite Hk; reflexivity).
    rewrite Hhas.
    destruct (text_of ns c "Size") as [s|] eqn:Hs.
    + destruct (py_int s) as [size|] eqn:Hint.
      * assert (Hbad : bad_size ns c = false)
          by (unfold bad_size; rewrite Hk, Hs, Hint; reflexivity).
        rewrite Hbad. cbn [orb length].
        destruct (contents_keys ns cs) as [ks| |]; [|exact IH|exact IH].
        destruct IH as [? ?]. split; [assumption | cbn [length]; congruence].
      * assert (Hbad : bad_size ns c = true)
          by (unfold bad_size; rewrite Hk, Hs, Hint; reflexivity).
        rewrite Hbad. split; reflexivity.
    + assert (Hbad : bad_size ns c = false)
        by (unfold bad_size; rewrite Hk, Hs; reflexivity).
      rewrite Hbad. cbn [orb length].
      destruct (contents_keys ns cs) as [ks| |]; [|exact IH|exact IH].
      destruct IH as [? ?]. split; [assumption | cbn [length]; congruence].
  - assert (Hhas : has_key ns c = false) by (unfold has_key; rewrite Hk; reflexivity).
    assert (Hbad : bad_size ns c = false) by (unfold bad_size; rewrite Hk; reflexivity).
    rewrite Hhas, Hbad. exact IH.
Qed.

(** X8: reading a response fails in one way only, with the [ValueError]
    of [int], and exactly when some [Contents] element that has a key has
    a size text that is no integer; a [Contents] element without key is
    left out, whatever its size text, and the others give one entry each. *)
Theorem page_of_xml_outcome (root : Element) :
  let ns := namespace_of root in
  let contents := findall (ns ++ "Contents") root in
  match page_of_xml root with
  | Ok page =>
      existsb (bad_size ns) contents = false /\
      length (keys page) = length (List.filter (has_key ns) contents)
  | Raise e => e = ValueError /\ existsb (bad_size ns) contents = true
  | OutOfFuel => False
  end.
Proof.
  intros ns contents. unfold page_of_xml. fold ns. fold contents.
  pose proof (contents_keys_outcome ns contents) as Hout.
  destruct (contents_keys ns contents); exact Hout.
Qed.
End ListingFacts.

Lemma page_of_xml_namespace_witness :
  page_of_xml namespaced_listing
  = Ok (mkPage [("a/b.txt"%string, 10)] [] true (Some "t1"%string)).
Proof.
  unfold namespaced_listing.
  rewrite (page_of_xml_namespace (W := Sim) "http://s3.amazonaws.com/doc/2006-03-01/").
  - reflexivity.
  - reflexivity.
  - reflexivity.
Defined.

(** ** What the pagination asks, and what a failing request does *)

Lemma sim_list_objects_v2_request b p d tok mk (w w1 : Sim) r :
  list_objects_v2 b p d tok mk w = (r, w1) ->
  sim_requests w1 = sim_requests w ++ [listing_url b (listing_params p d tok mk)] /\
  sim_calls w1 = S (sim_calls w).
Proof.
  unfold list_objects_v2, bind. cbn [http_get_xml Sim_Env].
  destruct (sim_listings w (sim_calls w)); intros [= <- <-]; split; reflexivity.
Qed.

(** The URL of a request of the pagination, written out. *)
Lemma listing_url_page base_url prefix tok :
  listing_url base_url (listing_params prefix None tok 1000)
  = (base_url ++ "?list-type=2&max-keys=1000"
     ++ (if nonempty prefix then "&prefix=" ++ quote_plus "/:+" prefix else "")
     ++ (if truthy tok
         then "&continuation-token=" ++ quote_plus "/:+" (default ""%string tok) else ""))%string.
Proof.
  assert (Hr : forall x : string, (x ++ "")%string = x).
  { induction x as [|c x IH]; [reflexivity|].
    change (String c (x ++ "") = String c x). rewrite IH. reflexivity. }
  unfold listing_url, listing_params, urlencode. f_equal.
  destruct (nonempty prefix); destruct tok as [t|]; cbn [truthy];
    try destruct (nonempty t); rewrite ?Hr; reflexivity.
Qed.

Lemma paginates_request_log base_url prefix (w : Sim) token pages w' :
  paginates base_url prefix w token pages w' ->
  sim_requests w'
  = sim_requests w
    ++ List.map (fun tok => listing_url base_url (listing_params prefix None tok 1000))
         (token :: List.map next_token (removelast pages)) /\
  sim_calls w' = (sim_calls w + length pages)%nat.
Proof.
  induction 1 as [w token page w' Hpage Hlast
                 |w token page w1 pages w' Hpage Hmore Hrest [IH1 IH2]].
  - destruct (sim_list_objects_v2_request _ _ _ _ _ _ _ _ Hpage) as [-> ->].
    split; [reflexivity | simpl; lia].
  - destruct (sim_list_objects_v2_request _ _ _ _ _ _ _ _ Hpage) as [Hreq Hcalls].
    rewrite IH1, IH2, Hreq, Hcalls, <- app_assoc.
    split; [|simpl; lia].
    f_equal. destruct pages as [|p2 pages]; [inversion Hrest|]. reflexivity.
Qed.

(** X9: against the simulated server, a listing of [n] pages makes exactly
    [n] requests, for the URLs [list_objects_v2] builds: the first without
    continuation token, each later one with the [next_token] of the page
    before it.  Each URL is the bucket URL, [?list-type=2&max-keys=1000],
    then [&prefix=] and the prefix when it is not empty, then
    [&continuation-token=] and the token when there is one, prefix and
    token written by [quote_plus] with [/:+] left as they are; there is
    never a delimiter. *)
Theorem iter_all_objects_requests (base_url prefix : string) (w : Sim) (token : option string)
    (pages : list Page) (w' : Sim) :
  paginates base_url prefix w token pages w' ->
  sim_requests w'
  = sim_requests w
    ++ List.map (fun tok => listing_url base_url (listing_params prefix None tok 1000))
         (token :: List.map next_token (removelast pages)) /\
  sim_calls w' = (sim_calls w + length pages)%nat /\
  forall tok,
    listing_url base_url (listing_params prefix None tok 1000)
    = (base_url ++ "?list-type=2&max-keys=1000"
       ++ (if nonempty prefix then "&prefix=" ++ quote_plus "/:+" prefix else "")
       ++ (if truthy tok
           then "&continuation-token=" ++ quote_plus "/:+" (default ""%string tok)
           else ""))%string.
Proof.
  intros Hpages. destruct (paginates_request_log _ _ _ _ _ _ Hpages) as [Hlog Hcalls].
  split; [exact Hlog|]. split; [exact Hcalls|]. intros tok. apply listing_url_page.
Qed.

Lemma iter_all_objects_requests_witness :
  exists w',
    paginates "u" "SDC3 x/" (sim_start (scripted two_page_server) ∅ ∅) None two_pages w' /\
    sim_requests w'
    = ["u?list-type=2&max-keys=1000&prefix=SDC3+x/";
       "u?list-type=2&max-keys=1000&prefix=SDC3+x/&continuation-token=t1"]%string /\
    sim_calls w' = 2%nat.
Proof.
  eassert (Hp : paginates "u" "SDC3 x/" (sim_start (scripted two_page_server) ∅ ∅)
                  None two_pages _).
  { unfold two_pages.
    eapply paginates_next; [vm_compute; reflexivity | reflexivity |].
    eapply paginates_last; [vm_compute; reflexivity | reflexivity]. }
  eexists. split; [exact Hp|].
  destruct (iter_all_objects_requests "u" "SDC3 x/" _ None two_pages _ Hp) as (Hreq & Hcalls & _).
  split; [exact Hreq | exact Hcalls].
Defined.

Section FailingRequest.
Context {W : Type} `{Env W}.
Variables (base_url prefix : string).

Lemma iter_snoc_fails w token pages e w' :
  fails_after base_url prefix w token pages e w' ->
  forall fuel l,
    (fst (iter_all_objects fuel base_url prefix token (fun l e => ret (l ++ [e])) l w)
     = OutOfFuel /\ (fuel <= length pages)%nat)
    \/ (iter_all_objects fuel base_url prefix token (fun l e => ret (l ++ [e])) l w
        = (Raise e, w') /\ (length pages < fuel)%nat).
Proof.
  induction 1 as [w token e w' Hreq|w token page w1 pages e w' Hreq Hmore _ IH];
    intros [|fuel] l; try (left; split; [reflexivity | simpl; lia]).
  - right. cbn [iter_all_objects]. unfold bind. rewrite Hreq. split; [reflexivity | simpl; lia].
  - cbn [iter_all_objects]. unfold bind. rewrite Hreq, for_each_snoc, Hmore. cbn [negb].
    destruct (IH fuel (l ++ keys page)) as [[H1 H2]|[H1 H2]].
    + left. split; [exact H1 | simpl; lia].
    + right. split; [exact H1 | simpl; lia].
Qed.

(** X10: when a request of the listing fails, after any number of pages,
    the listing raises the error of that request; [list_recursive] and
    [build_tree] raise it too and return no count and no tree for the
    pages already read. *)
Theorem listing_failure_propagates (w : W) (pages : list Page) (e : exn) (w' : W)
    (fuel : nat) :
  fails_after base_url prefix w None pages e w' ->
  (length pages < fuel)%nat ->
  all_objects fuel base_url prefix w = (Raise e, w') /\
  list_recursive fuel base_url prefix w = (Raise e, w') /\
  build_tree fuel base_url prefix w = (Raise e, w').
Proof.
  intros Hfail Hfuel.
  assert (Hall : all_objects fuel base_url prefix w = (Raise e, w')).
  { unfold all_objects. destruct (iter_snoc_fails _ _ _ _ _ Hfail fuel []) as [[_ H1]|[H1 _]];
      [lia | exact H1]. }
  split; [exact Hall|].
  rewrite list_recursive_run, build_tree_run, Hall. split; reflexivity.
Qed.
End FailingRequest.

Lemma listing_failure_propagates_witness :
  exists w',
    build_tree 5 "u" "" (sim_start failing_server ∅ ∅) = (Raise RuntimeError, w') /\
    list_recursive 5 "u" "" (sim_start failing_server ∅ ∅) = (Raise RuntimeError, w').
Proof.
  eassert (Hf : fails_after "u" "" (sim_start failing_server ∅ ∅) None
                  [mkPage [("a.txt"%string, 1)] [] true (Some "t1"%string)] RuntimeError _).
  { eapply fails_later; [vm_compute; reflexivity | reflexivity |].
    eapply fails_now. vm_compute. reflexivity. }
  eexists.
  destruct (listing_failure_propagates "u" "" _ _ _ _ 5%nat Hf) as (_ & H1 & H2);
    [simpl; lia|].
  split; [exact H2 | exact H1].
Defined.

(** ** The counters of [download_prefix] *)

Section LoopInvariant.
Context {W : Type} `{Env W} {A : Type}.
Variables (body : A -> string * Z -> M W A) (I : A -> Prop).
Hypothesis body_keeps : forall a e w a' w', I a -> body a e w = (Ok a', w') -> I a'.

Lemma for_each_invariant xs : forall a w a' w',
  I a -> for_each xs body a w = (Ok a', w') -> I a'.
Proof.
  induction xs as [|x xs IH]; intros a w a' w' Ha Hrun.
  - injection Hrun as <- _. exact Ha.
  - cbn [for_each] in Hrun. unfold bind in Hrun.
    destruct (body a x w) as [[a1| |] w1] eqn:Hstep; try discriminate.
    exact (IH _ _ _ _ (body_keeps _ _ _ _ _ Ha Hstep) Hrun).
Qed.

(** What every step of the consumer keeps holds when the loop is over. *)
Lemma iter_invariant base_url prefix fuel : forall token a w a' w',
  I a -> iter_all_objects fuel base_url prefix token body a w = (Ok a', w') -> I a'.
Proof.
  induction fuel as [|fuel IH]; intros token a w a' w' Ha Hrun; [discriminate|].
  cbn [iter_all_objects] in Hrun. unfold bind in Hrun.
  destruct (list_objects_v2 base_url prefix None token 1000 w) as [[page| |] w1];
    try discriminate.
  destruct (for_each (keys page) body a w1) as [[a1| |] w2] eqn:Hpage; try discriminate.
  pose proof (for_each_invariant _ _ _ _ _ Ha Hpage) as Ha1.
  destruct (is_truncated page); cbn [negb] in Hrun.
  - exact (IH _ _ _ _ _ Ha1 Hrun).
  - injection Hrun as <- _. exact Ha1.
Qed.
End LoopInvariant.

Section Counters.
Context {W : Type} `{Env W}.

Lemma download_step_counts base_url dest d s t l e (w : W) c' l' w' :
  with_log (download_step base_url dest) ((d, s, t), l) e w = (Ok (c', l'), w') ->
  d + s = t /\ t = Z.of_nat (length l) /\ 0 <= d /\ 0 <= s ->
  let '(d', s', t') := c' in
  d' + s' = t' /\ t' = Z.of_nat (length l') /\ 0 <= d' /\ 0 <= s'.
Proof.
  intros Hstep Hinv. rewrite with_log_step in Hstep.
  destruct e as [key size]. unfold download_step, bind in Hstep.
  destruct (download_object base_url key dest (Some size) w) as [[[p did]| |] w1];
    try discriminate.
  destruct did; injection Hstep as <- <- _; rewrite length_app; simpl; lia.
Qed.

(** X11: whenever [download_prefix] returns, its counters add up:
    [downloaded + skipped = total], none is negative, and [total] is the
    number of entries the listing has yielded. *)
Theorem download_prefix_counters (fuel : nat) (base_url prefix dest : string) (w : W)
    (downloaded skipped total : Z) (w' : W) :
  download_prefix fuel base_url prefix dest w = (Ok (downloaded, skipped, total), w') ->
  downloaded + skipped = total /\ 0 <= downloaded /\ 0 <= skipped /\
  exists es,
    download_prefix_logged fuel base_url prefix dest w
    = (Ok (downloaded, skipped, total, es), w') /\
    total = Z.of_nat (length es).
Proof.
  intros Hrun. rewrite download_prefix_logged_fst in Hrun.
  destruct (download_prefix_logged fuel base_url prefix dest w) as [[[c es]| |] w1] eqn:Hlog;
    try discriminate.
  simpl in Hrun. injection Hrun as -> ->.
  pose proof (iter_invariant (with_log (download_step base_url dest))
                (fun '((d, s, t), l) =>
                   d + s = t /\ t = Z.of_nat (length l) /\ 0 <= d /\ 0 <= s)) as Hinv.
  specialize (Hinv ltac:(intros [[[d s] t] l] e w0 [c' l'] w0' Ha Hstep;
                         exact (download_step_counts _ _ _ _ _ _ _ _ _ _ _ Hstep Ha))).
  specialize (Hinv base_url prefix fuel None (0, 0, 0, []) w (downloaded, skipped, total, es) w').
  cbv beta iota in Hinv. unfold download_prefix_logged in Hlog.
  destruct (Hinv ltac:(simpl; lia) Hlog) as (H1 & H2 & H3 & H4).
  repeat split; try assumption. exists es. split; [reflexivity | exact H2].
Qed.
End Counters.

Lemma download_prefix_counters_witness :
  let w := half_done_world in
  exists w' es,
    download_prefix 1 "u" "" "dest" w = (Ok (1, 1, 2), w') /\
    download_prefix_logged 1 "u" "" "dest" w = (Ok (1, 1, 2, es), w') /\
    2 = Z.of_nat (length es).
Proof.
  intros w.
  destruct (download_prefix 1 "u" "" "dest" w) as [r w'] eqn:Hrun.
  assert (Hr : r = Ok (1, 1, 2)) by (vm_compute in Hrun; congruence).
  subst r.
  destruct (download_prefix_counters 1 "u" "" "dest" w 1 1 2 w' Hrun)
    as (_ & _ & _ & es & Hlog & Hlen).
  exists w', es. repeat split; assumption.
Defined.

(** ** More on [normalize_prefix] *)

(** X12: a slash in front of the prefix changes nothing, and a slash
    behind a prefix that does not end with one changes nothing either:
    [SDC3], [/SDC3] and [SDC3/] are the same prefix. *)
Theorem normalize_prefix_slashes (p : string) :
  normalize_prefix (Some ("/" ++ p)%string) = normalize_prefix (Some p) /\
  (endswith_char slash p = false ->
   normalize_prefix (Some (p ++ "/")%string) = normalize_prefix (Some p)).
Proof.
  split.
  - change ("/" ++ p)%string with (String "/" p).
    unfold normalize_prefix. cbn [nonempty negb lstrip_char].
    replace (Ascii.eqb "/" slash) with true by reflexivity.
    destruct p as [|c p]; reflexivity.
  - intros Hend. unfold normalize_prefix. rewrite nonempty_app_slash. cbn [negb].
    destruct (nonempty p) eqn:Hp; cbn [negb].
    + assert (Hstrip : lstrip_char slash (p ++ "/") = (lstrip_char slash p ++ "/")%string
                       /\ nonempty (lstrip_char slash p) = true
                       /\ endswith_char slash (lstrip_char slash p) = false).
      { revert Hend Hp. induction p as [|c p IH]; intros Hend Hp; [discriminate|].
        change (String c p ++ "/")%string with (String c (p ++ "/")).
        cbn [lstrip_char]. destruct (Ascii.eqb c slash) eqn:Hc.
        - destruct p as [|c2 p]; [cbn [endswith_char] in Hend; congruence|].
          apply IH; [exact Hend | reflexivity].
        - repeat split. exact Hend. }
      destruct Hstrip as (-> & Hne & Hend').
      rewrite nonempty_app_slash, endswith_app_slash, Hne, Hend'. reflexivity.
    + destruct p; [reflexivity | discriminate].
Qed.

Lemma normalize_prefix_slashes_witness :
  normalize_prefix (Some "SDC3/"%string) = normalize_prefix (Some "SDC3"%string).
Proof.
  exact (proj2 (normalize_prefix_slashes "SDC3") eq_refl).
Defined.

(** ** More on [human_bytes] *)

Lemma round_half_even_1 a : round_half_even a 1 = a.
Proof. unfold round_half_even. rewrite Z.div_1_r, Z.mod_1_r. reflexivity. Qed.

Lemma round_half_even_le num den : 0 < den -> round_half_even num den <= num / den + 1.
Proof.
  intros Hden. unfold round_half_even.
  destruct (2 * (num mod den) <? den); [lia|].
  destruct (den <? 2 * (num mod den)); [lia|].
  destruct (Z.even (num / den)); lia.
Qed.

Lemma float_of_int_round53 n :
  float_of_int n
  = if round53 (Z.abs n) <? 2 ^ 1024 then Some (Z.sgn n * round53 (Z.abs n)) else None.
Proof. reflexivity. Qed.

(** X13: below 1024 [human_bytes] prints the count itself, in bytes. *)
Theorem human_bytes_below_1024 (n : Z) :
  0 <= n < 1024 -> human_bytes n = Ok (str_of_int n ++ ".00 B")%string.
Proof.
  intros Hn. unfold human_bytes.
  rewrite float_of_int_exact by (change (2 ^ 53) with 9007199254740992; lia).
  change (length units - 1)%nat with 4%nat. rewrite scale_steps.
  destruct (Z.leb_spec 1024 n) as [Hbig|_]; [lia|].
  unfold format_2f, fixed2. cbn [fnum fshift nth units]. change (2 ^ 0) with 1.
  rewrite round_half_even_1, (Z.abs_eq n) by lia.
  rewrite Z.div_mul, Z.mod_mul by lia.
  destruct (Z.ltb_spec n 0) as [Hneg|_]; [lia|].
  rewrite append_empty_l, !append_assoc_str. reflexivity.
Qed.

Lemma human_bytes_below_1024_witness : human_bytes 1023 = Ok "1023.00 B"%string.
Proof. exact (human_bytes_below_1024 1023 ltac:(lia)). Defined.

Lemma round53_small a : 0 <= a < 2 ^ 1023 -> round53 a < 2 ^ 1024.
Proof.
  intros [Ha Hlt]. unfold round53.
  destruct (Z.eq_dec a 0) as [->|Hne]; [reflexivity|].
  assert (Hpos : 0 < a) by lia.
  destruct (Z.log2_spec a Hpos) as [Hlo Hhi].
  assert (Hlog : Z.log2 a < 1023) by (apply Z.log2_lt_pow2; assumption).
  pose proof (Z.log2_nonneg a) as Hlog0.
  destruct (Z.le_gt_cases (Z.log2 a + 1 - 53) 0) as [Hd|Hd].
  - rewrite Z.max_l by exact Hd. change (2 ^ 0) with 1.
    rewrite round_half_even_1, Z.mul_1_r.
    eapply Z.lt_trans; [exact Hlt | reflexivity].
  - rewrite Z.max_r by lia. set (drop := Z.log2 a + 1 - 53) in *.
    assert (HD : 0 < 2 ^ drop) by (apply Z.pow_pos_nonneg; lia).
    assert (Hsplit : 2 ^ Z.succ (Z.log2 a) = 2 ^ 53 * 2 ^ drop).
    { rewrite <- Z.pow_add_r by lia. f_equal. unfold drop. lia. }
    assert (Hq : a / 2 ^ drop < 2 ^ 53).
    { apply Z.div_lt_upper_bound; [exact HD|]. rewrite Z.mul_comm, <- Hsplit. exact Hhi. }
    pose proof (round_half_even_le a (2 ^ drop) HD) as Hm.
    assert (Hv : round_half_even a (2 ^ drop) * 2 ^ drop <= 2 ^ 53 * 2 ^ drop)
      by (apply Z.mul_le_mono_nonneg_r; lia).
    rewrite <- Hsplit in Hv.
    assert (Hcap : 2 ^ Z.succ (Z.log2 a) <= 2 ^ 1023)
      by (apply Z.pow_le_mono_r; lia).
    assert (Hlast : 2 ^ 1023 < 2 ^ 1024) by reflexivity.
    lia.
Qed.

Lemma round53_huge a : 2 ^ 1024 <= a -> 2 ^ 1024 <= round53 a.
Proof.
  intros Ha. unfold round53.
  assert (Hpos : 0 < a) by (eapply Z.lt_le_trans; [|exact Ha]; reflexivity).
  assert (Hlog : 1024 <= Z.log2 a) by (apply Z.log2_le_pow2; [lia | exact Ha]).
  rewrite Z.max_r by lia. set (drop := Z.log2 a + 1 - 53).
  assert (HD : 0 < 2 ^ drop) by (apply Z.pow_pos_nonneg; unfold drop; lia).
  assert (Hsplit : 2 ^ Z.log2 a = 2 ^ 52 * 2 ^ drop).
  { rewrite <- Z.pow_add_r by (unfold drop; lia). f_equal. unfold drop. lia. }
  assert (Hq : 2 ^ 52 <= a / 2 ^ drop).
  { apply Z.div_le_lower_bound; [exact HD|]. rewrite Z.mul_comm, <- Hsplit.
    apply Z.log2_spec. exact Hpos. }
  pose proof (round_half_even_ge a (2 ^ drop)) as Hm.
  assert (Hv : 2 ^ 52 * 2 ^ drop <= round_half_even a (2 ^ drop) * 2 ^ drop)
    by (apply Z.mul_le_mono_nonneg_r; lia).
  rewrite <- Hsplit in Hv.
  assert (Hcap : 2 ^ 1024 <= 2 ^ Z.log2 a) by (apply Z.pow_le_mono_r; lia).
  lia.
Qed.

Lemma round53_top a :
  2 ^ 1023 <= a < 2 ^ 1024 -> (2 ^ 1024 <= round53 a <-> float_limit <= a).
Proof.
  intros [Hlo Hhi]. unfold round53, float_limit.
  assert (Hlog : Z.log2 a = 1023) by (apply Z.log2_unique; [lia | split; assumption]).
  rewrite Hlog. change (Z.max 0 (1023 + 1 - 53)) with 971.
  pose proof (Z.div_mod a (2 ^ 971) ltac:(discriminate)) as Hdm.
  pose proof (Z.mod_pos_bound a (2 ^ 971) ltac:(reflexivity)) as Hr.
  unfold round_half_even.
  remember (a / 2 ^ 971) as q eqn:Hq0. remember (a mod 2 ^ 971) as r eqn:Hr0.
  clear Hq0 Hr0 Hlog.
  assert (E1024 : 2 ^ 1024 = 9007199254740992 * (2 * 2 ^ 970)) by reflexivity.
  assert (E1023 : 2 ^ 1023 = 4503599627370496 * (2 * 2 ^ 970)) by reflexivity.
  assert (E971 : 2 ^ 971 = 2 * 2 ^ 970) by reflexivity.
  rewrite E1024 in *. rewrite E1023 in *. rewrite E971 in *.
  clear E1024 E1023 E971.
  remember (2 ^ 970) as H eqn:EH.
  assert (PH : 0 < H) by (rewrite EH; reflexivity). clear EH.
  rewrite <- Z.mul_le_mono_pos_r by lia.
  assert (Hq : q < 9007199254740992).
  { destruct (Z.lt_ge_cases q 9007199254740992) as [|Hge]; [assumption|].
    pose proof (Z.mul_le_mono_nonneg_l _ _ H ltac:(lia) Hge). lia. }
  destruct (Z.eq_dec q 9007199254740991) as [->|Hne].
  - change (Z.even 9007199254740991) with false.
    destruct (Z.ltb_spec (2 * r) (2 * H)); [lia|].
    destruct (Z.ltb_spec (2 * H) (2 * r)); lia.
  - assert (Hq2 : q <= 9007199254740990) by lia.
    pose proof (Z.mul_le_mono_nonneg_l _ _ H ltac:(lia) Hq2).
    destruct (Z.ltb_spec (2 * r) (2 * H)); [lia|].
    destruct (Z.ltb_spec (2 * H) (2 * r)); [lia|].
    destruct (Z.even q); lia.
Qed.

Lemma round53_overflow a : 0 <= a -> (2 ^ 1024 <= round53 a <-> float_limit <= a).
Proof.
  intros Ha.
  destruct (Z.lt_ge_cases a (2 ^ 1023)) as [Hs|Hs].
  - pose proof (round53_small a (conj Ha Hs)) as Hv.
    assert (2 ^ 1023 <= float_limit) by (vm_compute; discriminate). lia.
  - destruct (Z.lt_ge_cases a (2 ^ 1024)) as [Ht|Ht].
    + apply round53_top. split; assumption.
    + pose proof (round53_huge a Ht) as Hv.
      assert (float_limit <= 2 ^ 1024) by (vm_compute; discriminate). lia.
Qed.

(** X14: [human_bytes] raises the [OverflowError] of [float] exactly for
    the integers of magnitude 2^1024 - 2^970 or more, and returns a string
    for every other integer. *)
Theorem human_bytes_overflow (n : Z) :
  (human_bytes n = Raise OverflowError <-> float_limit <= Z.abs n) /\
  (Z.abs n < float_limit -> exists s, human_bytes n = Ok s).
Proof.
  pose proof (round53_overflow (Z.abs n) (Z.abs_nonneg n)) as Hover.
  unfold human_bytes. rewrite float_of_int_round53.
  destruct (Z.ltb_spec (round53 (Z.abs n)) (2 ^ 1024)) as [Hfit|Hnofit].
  - destruct (scale (length units - 1) _ 0) as [f i].
    split; [split; [discriminate | intros Hbig; apply Hover in Hbig; lia] | eauto].
  - split; [split; [intros _; apply Hover; exact Hnofit | reflexivity]|].
    intros Hsmall. apply Hover in Hnofit. lia.
Qed.

Lemma human_bytes_overflow_witness : exists s, human_bytes (2 ^ 60) = Ok s.
Proof.
  apply (proj2 (human_bytes_overflow (2 ^ 60))). vm_compute. reflexivity.
Defined.

Example top_level_scenario :
  fst (list_top_level "u" (sim_start top_level_server ∅ ∅))
  = Ok (["SDC3/"; "b/"]%string, ["README"; "zeta.txt"]%string) /\
  sim_requests (snd (list_top_level "u" (sim_start top_level_server ∅ ∅)))
  = ["u?list-type=2&max-keys=1000&delimiter=/"]%string.
Proof. vm_compute. split; reflexivity. Qed.

Example base_url_scenario :
  build_bucket_base_url "https://rgw.cscs.ch/" "ska" "sdc3-simdata"
  = "https://rgw.cscs.ch/ska:sdc3-simdata"%string /\
  build_bucket_base_url "https://rgw.cscs.ch" "" "my bucket/x"
  = "https://rgw.cscs.ch/my%20bucket%2Fx"%string.
Proof. vm_compute. split; reflexivity. Qed.

(** ** The bucket URL *)

Lemma quote_app safe (a b : string) :
  quote safe (a ++ b) = (quote safe a ++ quote safe b)%string.
Proof.
  induction a as [|c a IH]; [reflexivity|].
  change (quote safe (String c (a ++ b))
          = (((if kept safe c then String c EmptyString else percent c) ++ quote safe a)
             ++ quote safe b)%string).
  cbn [quote]. rewrite IH, append_assoc_str. reflexivity.
Qed.

Lemma all_chars_app f (a b : string) :
  all_chars f (a ++ b) = all_chars f a && all_chars f b.
Proof.
  induction a as [|c a IH]; [reflexivity|].
  change (all_chars f (String c (a ++ b)) = all_chars f (String c a) && all_chars f b).
  cbn [all_chars]. rewrite IH, andb_assoc. reflexivity.
Qed.

Lemma percent_chars safe c : all_chars (url_char safe) (percent c) = true.
Proof. destruct c as [[] [] [] [] [] [] [] []]; reflexivity. Qed.

Lemma quote_chars safe s : all_chars (url_char safe) (quote safe s) = true.
Proof.
  induction s as [|c s IH]; [reflexivity|].
  cbn [quote]. rewrite all_chars_app, IH, andb_true_r.
  destruct (kept safe c) eqn:Hk; [|apply percent_chars].
  cbn [all_chars]. unfold url_char. rewrite Hk, orb_true_r. reflexivity.
Qed.

Lemma all_chars_excludes f c s :
  all_chars f s = true -> f c = false -> contains_char c s = false.
Proof.
  intros Hall Hc. induction s as [|a s IH]; [reflexivity|].
  cbn [all_chars] in Hall. apply andb_true_iff in Hall. destruct Hall as [Ha Hs].
  cbn [contains_char]. rewrite (IH Hs), orb_false_r.
  destruct (Ascii.eqb_spec a c) as [->|]; [congruence | reflexivity].
Qed.

(** X15: the bucket URL is the endpoint without its trailing slashes, a
    slash, and one path segment: the escaped bucket, after the escaped
    tenant and a colon left as it is when there is a tenant.  The segment
    is made of letters, digits, [_.-~:] and percent escapes only, so no
    slash, question mark, hash or space of a name reaches the URL. *)
Theorem build_bucket_base_url_segment (endpoint tenant bucket : string) :
  let seg :=
    if nonempty tenant then (quote ":" tenant ++ ":" ++ quote ":" bucket)%string
    else quote ":" bucket in
  build_bucket_base_url endpoint tenant bucket
  = (rstrip_char slash endpoint ++ "/" ++ seg)%string /\
  all_chars (url_char ":") seg = true /\
  contains_char "/" seg = false /\ contains_char "?" seg = false /\
  contains_char "#" seg = false /\ contains_char " " seg = false.
Proof.
  intros seg.
  assert (Hseg : all_chars (url_char ":") seg = true).
  { unfold seg. destruct (nonempty tenant); [|apply quote_chars].
    rewrite !all_chars_app, !quote_chars. reflexivity. }
  split.
  - unfold build_bucket_base_url, seg. destruct (nonempty tenant); [|reflexivity].
    rewrite !quote_app. reflexivity.
  - split; [exact Hseg|].
    repeat split; apply (all_chars_excludes _ _ _ Hseg); reflexivity.
Qed.

Lemma rstrip_app_slash e : rstrip_char slash (e ++ "/") = rstrip_char slash e.
Proof.
  induction e as [|a e IH]; [reflexivity|].
  change (rstrip_char slash (String a (e ++ "/")) = rstrip_char slash (String a e)).
  cbn [rstrip_char]. rewrite IH. reflexivity.
Qed.

Lemma rstrip_no_trailing e : endswith_char slash (rstrip_char slash e) = false.
Proof.
  induction e as [|a e IH]; [reflexivity|].
  cbn [rstrip_char]. destruct (rstrip_char slash e) as [|b r].
  - destruct (Ascii.eqb a slash) eqn:Ha; [reflexivity|]. cbn [endswith_char]. exact Ha.
  - exact IH.
Qed.

(** X16: trailing slashes of the endpoint do not matter: the URL is the
    same with one more, and the part before the bucket segment never ends
    with a slash. *)
Theorem build_bucket_base_url_endpoint_slash (endpoint tenant bucket : string) :
  build_bucket_base_url (endpoint ++ "/") tenant bucket
  = build_bucket_base_url endpoint tenant bucket /\
  endswith_char slash (rstrip_char slash endpoint) = false.
Proof.
  split; [|apply rstrip_no_trailing].
  unfold build_bucket_base_url. rewrite rstrip_app_slash. reflexivity.
Qed.

Lemma quote_safe_string safe s : all_chars always_safe s = true -> quote safe s = s.
Proof.
  induction s as [|c s IH]; [reflexivity|].
  cbn [all_chars quote]. intros [Hc Hs]%andb_true_iff.
  unfold kept. rewrite Hc, (IH Hs). reflexivity.
Qed.

(** X17: a tenant and a bucket made of letters, digits and [_.-~] stand in
    the URL as they are, joined by a colon. *)
Theorem build_bucket_base_url_plain (endpoint tenant bucket : string) :
  nonempty tenant = true ->
  all_chars always_safe tenant = true ->
  all_chars always_safe bucket = true ->
  build_bucket_base_url endpoint tenant bucket
  = (rstrip_char slash endpoint ++ "/" ++ tenant ++ ":" ++ bucket)%string.
Proof.
  intros Hten Ht Hb. unfold build_bucket_base_url. rewrite Hten, !quote_app.
  rewrite (quote_safe_string _ _ Ht), (quote_safe_string _ _ Hb). reflexivity.
Qed.

Lemma build_bucket_base_url_plain_witness :
  build_bucket_base_url "https://rgw.cscs.ch" "ska" "sdc3-simdata"
  = "https://rgw.cscs.ch/ska:sdc3-simdata"%string.
Proof.
  exact (build_bucket_base_url_plain "https://rgw.cscs.ch" "ska" "sdc3-simdata"
           eq_refl eq_refl eq_refl).
Defined.

(** ** The top-level view *)

Lemma str_le_total : Total str_le.
Proof. intros a b. apply String.leb_total. Qed.

Section TopLevelFacts.
Context {W : Type} `{Env W}.

Lemma prefixes_of_nonempty ns cps : Forall (fun p => nonempty p = true) (prefixes_of ns cps).
Proof.
  induction cps as [|cp cps IH]; [constructor|].
  cbn [prefixes_of]. destruct (text_of ns cp "Prefix") as [p|]; [|exact IH].
  destruct (nonempty p) eqn:Hp; [constructor; assumption | exact IH].
Qed.

Lemma list_objects_v2_prefixes base_url prefix d tok mk (w : W) page w' :
  list_objects_v2 base_url prefix d tok mk w = (Ok page, w') ->
  Forall (fun p => nonempty p = true) (common_prefixes page).
Proof.
  unfold list_objects_v2, bind.
  destruct (http_get_xml base_url (listing_params prefix d tok mk) w) as [[root| |] w1];
    try discriminate.
  unfold page_of_xml.
  destruct (contents_keys _ _); try discriminate.
  intros [= <- _]. apply prefixes_of_nonempty.
Qed.

(** X18: [list_top_level] makes one request, with delimiter [/] and
    without prefix or token, and reads nothing beyond that page even when
    it is truncated.  The folders are the common prefixes of the page in
    ascending order, each as often as the page has it, none empty; the
    root files are the keys of the page without slash in ascending order,
    each as often as the page has it: none is dropped and none added. *)
Theorem list_top_level_result (base_url : string) (w : W)
    (folders root_files : list string) (w' : W) :
  list_top_level base_url w = (Ok (folders, root_files), w') ->
  exists page,
    list_objects_v2 base_url "" (Some "/"%string) None 1000 w = (Ok page, w') /\
    Sorted str_le folders /\ Permutation folders (common_prefixes page) /\
    Forall (fun p => nonempty p = true) folders /\
    Sorted str_le root_files /\
    Permutation root_files
      (List.map fst (List.filter (fun e => negb (has_slash (fst e))) (keys page))) /\
    Forall (fun k => has_slash k = false) root_files /\
    forall k, In k root_files
              <-> has_slash k = false /\ exists size, In (k, size) (keys page).
Proof.
  unfold list_top_level, bind.
  destruct (list_objects_v2 base_url "" (Some "/"%string) None 1000 w)
    as [[page| |] w1] eqn:Hpage; try discriminate.
  intros [= <- <- <-]. exists page. split; [reflexivity|].
  pose proof (merge_sort_Permutation str_le (common_prefixes page)) as Hpf.
  set (plain := List.map fst (List.filter (fun e => negb (has_slash (fst e))) (keys page))).
  pose proof (merge_sort_Permutation str_le plain) as Hpr.
  assert (Hplain : forall k, In k plain
                             <-> has_slash k = false /\ exists size, In (k, size) (keys page)).
  { intros k. unfold plain. rewrite in_map_iff. split.
    - intros ([k0 size] & <- & Hin). apply filter_In in Hin. destruct Hin as [Hin Hs].
      simpl in *. apply negb_true_iff in Hs. eauto.
    - intros (Hs & size & Hin). exists (k, size). split; [reflexivity|].
      apply filter_In. split; [exact Hin|]. simpl. rewrite Hs. reflexivity. }
  split; [apply Sorted_merge_sort; exact str_le_total|].
  split; [exact Hpf|].
  split.
  { rewrite List.Forall_forall. intros p Hp.
    pose proof (list_objects_v2_prefixes _ _ _ _ _ _ _ _ Hpage) as Hne.
    rewrite List.Forall_forall in Hne. apply Hne.
    apply (Permutation_in _ Hpf Hp). }
  split; [apply Sorted_merge_sort; exact str_le_total|].
  split; [exact Hpr|].
  split.
  { rewrite List.Forall_forall. intros k Hk.
    apply (Permutation_in _ Hpr), Hplain in Hk. tauto. }
  intros k. rewrite <- Hplain. split; intros Hk.
  - exact (Permutation_in _ Hpr Hk).
  - exact (Permutation_in _ (Permutation_sym Hpr) Hk).
Qed.
End TopLevelFacts.

Lemma list_top_level_result_witness :
  exists folders root_files w' page,
    list_top_level "u" (sim_start top_level_server ∅ ∅) = (Ok (folders, root_files), w') /\
    list_objects_v2 "u" "" (Some "/"%string) None 1000 (sim_start top_level_server ∅ ∅)
    = (Ok page, w') /\
    is_truncated page = true /\
    Sorted str_le folders /\ Sorted str_le root_files.
Proof.
  destruct (list_top_level "u" (sim_start top_level_server ∅ ∅)) as [[[f r]| |] w'] eqn:Hrun;
    try (vm_compute in Hrun; discriminate).
  destruct (list_top_level_result "u" _ f r w' Hrun)
    as (page & Hpage & Hf & _ & _ & Hr & _ & _).
  exists f, r, w', page. split; [reflexivity|]. split; [exact Hpage|].
  split; [|split; assumption].
  vm_compute in Hpage. injection Hpage as <- _. reflexivity.
Defined.

(** ** Path segments of a key *)

Lemma rel_key_no_prefix key : rel_key "" key = key.
Proof. reflexivity. Qed.

(** X19: the path segments of [a/b] are those of [a] followed by those of
    [b]; so a doubled slash, a leading slash and a trailing slash add no
    segment, and [a//b] is filed where [a/b] is. *)
Theorem key_parts_join (a b : string) :
  key_parts "" (a ++ "/" ++ b) = key_parts "" a ++ key_parts "" b /\
  key_parts "" (a ++ "//" ++ b) = key_parts "" (a ++ "/" ++ b) /\
  key_parts "" ("/" ++ a) = key_parts "" a /\
  key_parts "" (a ++ "/") = key_parts "" a.
Proof.
  assert (Hjoin : forall x y, key_parts "" (x ++ "/" ++ y) = key_parts "" x ++ key_parts "" y).
  { intros x y. unfold key_parts. rewrite !rel_key_no_prefix.
    change ("/" ++ y)%string with (String slash y).
    rewrite split_char_app. apply List.filter_app. }
  split; [apply Hjoin|]. split; [|split].
  - change ("//" ++ b)%string with ("/" ++ ("/" ++ b))%string.
    rewrite (Hjoin a ("/" ++ b)%string), (Hjoin a b).
    change ("/" ++ b)%string with ("" ++ "/" ++ b)%string. rewrite (Hjoin "" b). reflexivity.
  - change ("/" ++ a)%string with ("" ++ "/" ++ a)%string. rewrite (Hjoin "" a). reflexivity.
  - change (a ++ "/")%string with (a ++ "/" ++ "")%string. rewrite (Hjoin a "").
    apply app_nil_r.
Qed.

(** ** What a completed download leaves on disk *)



(** ** The URL of a request cannot tell a plus sign from a space *)

Lemma spaces_to_plus_app (a b : string) :
  spaces_to_plus (a ++ b) = (spaces_to_plus a ++ spaces_to_plus b)%string.
Proof.
  induction a as [|c a IH]; [reflexivity|].
  change (spaces_to_plus (String c (a ++ b))
          = String (if Ascii.eqb c " " then "+"%char else c)
              (spaces_to_plus a ++ spaces_to_plus b)).
  cbn [spaces_to_plus]. rewrite IH. reflexivity.
Qed.

Lemma contains_char_app c (a b : string) :
  contains_char c (a ++ b) = contains_char c a || contains_char c b.
Proof.
  induction a as [|x a IH]; [reflexivity|].
  change (contains_char c (String x (a ++ b))
          = contains_char c (String x a) || contains_char c b).
  cbn [contains_char]. rewrite IH, orb_assoc. reflexivity.
Qed.

Lemma spaces_to_plus_percent c : spaces_to_plus (percent c) = percent c.
Proof. destruct c as [[] [] [] [] [] [] [] []]; reflexivity. Qed.

Lemma kept_with_space safe c :
  kept (safe ++ " ") c = kept safe c || Ascii.eqb c " ".
Proof.
  unfold kept. rewrite contains_char_app. cbn [contains_char]. rewrite orb_false_r.
  rewrite (Ascii.eqb_sym " " c).
  destruct (Ascii.eqb_spec c " ") as [->|Hc]; [|rewrite !orb_false_r; reflexivity].
  rewrite !orb_true_r. reflexivity.
Qed.

Lemma plus_bytes_with_space safe s :
  spaces_to_plus (quote (safe ++ " ") s) = plus_bytes safe s.
Proof.
  induction s as [|c s IH]; [reflexivity|].
  cbn [quote plus_bytes]. rewrite spaces_to_plus_app, IH. f_equal.
  unfold plus_byte. rewrite kept_with_space.
  destruct (Ascii.eqb_spec c " ") as [->|Hc].
  - rewrite orb_true_r. reflexivity.
  - rewrite orb_false_r. destruct (kept safe c); [|apply spaces_to_plus_percent].
    cbn [spaces_to_plus]. destruct (Ascii.eqb_spec c " "); [contradiction | reflexivity].
Qed.

Lemma plus_bytes_without_space safe s :
  contains_char " " s = false -> quote safe s = plus_bytes safe s.
Proof.
  induction s as [|c s IH]; [reflexivity|].
  cbn [contains_char quote plus_bytes]. intros [Hc Hs]%orb_false_iff.
  rewrite (IH Hs). unfold plus_byte. rewrite Hc. reflexivity.
Qed.

(** [quote_plus] works byte by byte. *)
Lemma quote_plus_bytes safe s : quote_plus safe s = plus_bytes safe s.
Proof.
  unfold quote_plus. destruct (contains_char " " s) eqn:Hs.
  - apply plus_bytes_with_space.
  - apply plus_bytes_without_space, Hs.
Qed.

Lemma plus_bytes_app safe (a b : string) :
  plus_bytes safe (a ++ b) = (plus_bytes safe a ++ plus_bytes safe b)%string.
Proof.
  induction a as [|c a IH]; [reflexivity|].
  change (plus_bytes safe (String c (a ++ b))
          = ((plus_byte safe c ++ plus_bytes safe a) ++ plus_bytes safe b)%string).
  cbn [plus_bytes]. rewrite IH, append_assoc_str. reflexivity.
Qed.

Lemma nonempty_middle (a b : string) c : nonempty (a ++ String c b) = true.
Proof. destruct a; reflexivity. Qed.

Lemma middle_differs (a b : string) c1 c2 :
  c1 <> c2 -> (a ++ String c1 b)%string <> (a ++ String c2 b)%string.
Proof.
  intros Hc. induction a as [|x a IH].
  - intros [= E]. contradiction.
  - intros E. apply IH.
    change (String x (a ++ String c1 b) = String x (a ++ String c2 b)) in E.
    injection E as E. exact E.
Qed.

(** X21: the URL of a listing request writes a space of the prefix or of
    the continuation token as a plus sign and leaves a plus sign as it is:
    two prefixes, or two tokens, that differ only in having a space where
    the other has a plus sign are different texts and give the same
    request. *)
Theorem listing_url_plus_or_space (base_url prefix a b : string) :
  (a ++ " " ++ b)%string <> (a ++ "+" ++ b)%string /\
  quote_plus "/:+" (a ++ " " ++ b) = quote_plus "/:+" (a ++ "+" ++ b) /\
  listing_url base_url (listing_params prefix None (Some (a ++ " " ++ b)%string) 1000)
  = listing_url base_url (listing_params prefix None (Some (a ++ "+" ++ b)%string) 1000) /\
  listing_url base_url (listing_params (a ++ " " ++ b) None None 1000)
  = listing_url base_url (listing_params (a ++ "+" ++ b) None None 1000).
Proof.
  assert (Hq : quote_plus "/:+" (a ++ " " ++ b) = quote_plus "/:+" (a ++ "+" ++ b)).
  { rewrite !quote_plus_bytes, !plus_bytes_app. reflexivity. }
  split; [apply middle_differs; discriminate|]. split; [exact Hq|].
  rewrite !listing_url_page. cbn [truthy default from_option id].
  change (a ++ " " ++ b)%string with (a ++ String " " b)%string in *.
  change (a ++ "+" ++ b)%string with (a ++ String "+" b)%string in *.
  rewrite !nonempty_middle, Hq. split; reflexivity.
Qed.

(** ** What fetching an object needs and leaves *)

Lemma sim_download_object_fetched b k d size (w w' : Sim) p :
  download_object b k d size w = (Ok (p, true), w') ->
  p = posix_join d k /\
  sim_requests w' = sim_requests w ++ [object_url b k] /\
  exists n, sim_objects w !! object_url b k = Some n /\
    (nonempty p = true ->
     sim_stat p w' = Some (sim_locate w p, File n) /\
     nonempty (posix_dirname p) = true /\
     proper_name (List.last (split_char slash p) ""%string) = true).
Proof.
  unfold download_object. cbn [os_path_join Sim_Env].
  set (q := posix_join d k). unfold bind at 1.
  destruct (sim_ensure_parent q w) as (r & fsA & -> & HgA & Hr).
  destruct Hr as [-> | ->]; [|discriminate].
  unfold bind at 1.
  destruct (size_matches q size (sim_set_files w fsA)) as [[skip| |] w1] eqn:Hsize;
    try discriminate.
  assert (Hw1 : w1 = sim_set_files w fsA).
  { destruct size as [sz|].
    - destruct (sim_size_matches q sz (sim_set_files w fsA)) as (skip' & Hsm & _).
      congruence.
    - unfold size_matches in Hsize. congruence. }
  subst w1. destruct skip; [discriminate|].
  unfold bind at 1.
  destruct (http_get_stream b k q (sim_set_files w fsA)) as [[[]| |] w2] eqn:Hget;
    try discriminate.
  intros [= <- <-]. split; [reflexivity|].
  destruct (nonempty q) eqn:Hne.
  - destruct (sim_http_get_stream_path _ _ _ _ _ Hget Hne) as (Hdir & Hname).
    destruct (sim_http_get_stream _ _ _ _ _ Hget Hne)
      as (n & fsB & loc & Hn & _ & Hst & _ & _ & ->).
    split; [reflexivity|]. exists n. split; [exact Hn|]. intros _.
    split; [|split; assumption].
    unfold sim_stat, sim_locate. cbn [sim_files sim_cwd sim_set_files sim_log] in *.
    rewrite Hst, <- (stat_locate _ _ _ _ _ Hst). reflexivity.
  - destruct (sim_http_get_stream_empty _ _ _ _ _ Hget Hne) as (-> & n & Hn).
    split; [reflexivity|]. exists n. split; [exact Hn | discriminate].
Qed.

(** X22: in the simulated world, when [download_object] returns
    [downloaded = True], the path it returns is [dest_root] joined with
    the key; the one request made since is the one for the URL of the
    key: [base_url], a slash, and the key with every byte but letters,
    digits and [_.-~/:+] escaped; and, unless the path is empty, a regular
    file with the length of the object served at that URL is at the path.
    (The path is empty for an empty key under an empty destination only,
    and [http_get] then writes nothing.) *)
Theorem download_object_fetched (base_url key dest_root : string) (size : option Z)
    (w w' : Sim) (p : string) :
  download_object base_url key dest_root size w = (Ok (p, true), w') ->
  p = posix_join dest_root key /\
  sim_requests w' = sim_requests w ++ [(base_url ++ "/" ++ quote "/:+" key)%string] /\
  exists n, sim_objects w !! object_url base_url key = Some n /\
            (nonempty p = true -> sim_stat p w' = Some (sim_locate w p, File n)).
Proof.
  intros Hrun.
  destruct (sim_download_object_fetched _ _ _ _ _ _ _ Hrun) as (Hp & Hreq & n & Hn & Hfile).
  split; [exact Hp|]. split; [exact Hreq|]. exists n. split; [exact Hn|].
  intros Hne. exact (proj1 (Hfile Hne)).
Qed.

Lemma download_object_fetched_witness :
  let w' := snd (download_object "u" "b/c d" "dest" (Some 3)
                   (sim_start (scripted []) {[ "u/b/c%20d"%string := 3 ]} ∅)) in
  sim_stat "dest/b/c d" w' = Some (["dest"; "b"; "c d"]%string, File 3) /\
  sim_requests w' = ["u/b/c%20d"%string].
Proof.
  intros w'.
  destruct (download_object_fetched "u" "b/c d" "dest" (Some 3)
              (sim_start (scripted []) {[ "u/b/c%20d"%string := 3 ]} ∅) w' "dest/b/c d")
    as (_ & Hreq & n & Hn & Hst).
  - vm_compute. reflexivity.
  - vm_compute in Hn. injection Hn as <-. split; [exact (Hst eq_refl) | exact Hreq].
Defined.






